(** * Innergy API examples: the C++ JSON helpers of [work_orders.cpp]

    The C++ example links no JSON library and carries its own text
    handling: [JsonWriter::escape], [JsonWriter::prettyPrint] and the loop of
    [outputSuccess] that counts a key marker.  This development embeds the
    three routines as functions over byte strings and settles the properties
    the specification states about them.  A reading of JSON texts after
    RFC 8259 serves as the reference against which the reformatter is
    compared.  The rest of the program follows: [parseEnvPath],
    [loadEnvFile], [fetchWorkOrders] over an abstract libcurl,
    [outputSuccess], [outputError] and [main], with standard output as a
    string that grows. *)

From Stdlib Require Import Ascii String.
From Stdlib Require Import List ZArith NArith Lia Bool Arith.
From Stdlib Require Import DecimalString.
From Equations Require Import Equations.
From Equations.Prop Require Import Logic.
Import ListNotations.

Local Open Scope char_scope.
Local Open Scope list_scope.

(** ** Characters and strings

    A [std::string] is a sequence of [char]; each [char] is one byte. *)

Definition cstring := list ascii.

Definition dquote : ascii := "034".
Definition backslash : ascii := "092".
Definition LF : ascii := "010".
Definition CR : ascii := "013".
Definition TAB : ascii := "009".
Definition NUL : ascii := "000".

Definition lit (s : string) : cstring := list_ascii_of_string s.

(** Example texts are written with an apostrophe standing for the double
    quote, and multi-line texts as a list of lines joined by the newline
    character. *)
Definition jtext (s : string) : cstring :=
  map (fun c => if (c =? "'")%char then dquote else c) (lit s).

Fixpoint jlines (ls : list string) : cstring :=
  match ls with
  | [] => []
  | [l] => jtext l
  | l :: ls' => jtext l ++ LF :: jlines ls'
  end.

(** ** Outcomes

    [prettyPrint] builds its padding with [std::string(count, ch)], whose
    [count] parameter is a [size_t].  A negative [int] converts to a value
    above [max_size()], and the constructor throws [std::length_error]. *)

Inductive outcome (A : Type) : Type :=
| Returned (a : A)
| LengthError.
Arguments Returned {A} a.
Arguments LengthError {A}.

Definition bind {A B} (m : outcome A) (k : A -> outcome B) : outcome B :=
  match m with
  | Returned a => k a
  | LengthError => LengthError
  end.

Notation "x <- m ;; k" := (bind m (fun x => k))
  (at level 61, m at next level, right associativity).

Module JsonWriter.

(** *** [escape] (work_orders.cpp, lines 40-53)

    A range-for over the input whose [switch] appends to [result]. *)

Definition escape_step (result : cstring) (c : ascii) : cstring :=
  if (c =? dquote)%char then result ++ [backslash; dquote]
  else if (c =? backslash)%char then result ++ [backslash; backslash]
  else if (c =? LF)%char then result ++ [backslash; "n"]
  else if (c =? CR)%char then result ++ [backslash; "r"]
  else if (c =? TAB)%char then result ++ [backslash; "t"]
  else result ++ [c].

Definition escape (s : cstring) : cstring :=
  fold_left escape_step s [].

(** *** [prettyPrint] (work_orders.cpp, lines 67-109)

    The loop keeps [result], [indent], [inString] and [prevChar].  [indent]
    and the marker count are [int] in the source and are kept in [Z] here:
    [run_bound] and [indent_fits_int] below show that after [n] characters
    [indent] lies between 0 and [n], so the two agree on every input
    shorter than 2^30 characters. *)

Local Open Scope Z_scope.

Definition fill (count : Z) (ch : ascii) : outcome cstring :=
  if count <? 0 then LengthError
  else Returned (repeat ch (Z.to_nat count)).

Record scan : Type := mkScan
  { result : cstring; indent : Z; inString : bool; prevChar : ascii }.

Definition scan_init : scan := mkScan [] 0 false NUL.

Definition step (st : scan) (c : ascii) : outcome scan :=
  let inString' :=
    if (c =? dquote)%char && negb (prevChar st =? backslash)%char
    then negb (inString st) else inString st in
  if negb inString' then
    if (c =? "{")%char || (c =? "[")%char then
      let indent' := indent st + 1 in
      pad <- fill (indent' * 2) " " ;;
      Returned (mkScan (result st ++ [c] ++ [LF] ++ pad) indent' inString' c)
    else if (c =? "}")%char || (c =? "]")%char then
      let indent' := indent st - 1 in
      pad <- fill (indent' * 2) " " ;;
      Returned (mkScan (result st ++ [LF] ++ pad ++ [c]) indent' inString' c)
    else if (c =? ",")%char then
      pad <- fill (indent st * 2) " " ;;
      Returned (mkScan (result st ++ [c] ++ [LF] ++ pad) (indent st) inString' c)
    else if (c =? ":")%char then
      Returned (mkScan (result st ++ [c] ++ [" "%char]) (indent st) inString' c)
    else if negb (c =? " ")%char && negb (c =? LF)%char
            && negb (c =? CR)%char && negb (c =? TAB)%char then
      Returned (mkScan (result st ++ [c]) (indent st) inString' c)
    else
      Returned (mkScan (result st) (indent st) inString' c)
  else
    Returned (mkScan (result st ++ [c]) (indent st) inString' c).

Fixpoint run (json : cstring) (st : scan) : outcome scan :=
  match json with
  | [] => Returned st
  | c :: rest => st' <- step st c ;; run rest st'
  end.

Definition prettyPrint (json : cstring) : outcome cstring :=
  st <- run json scan_init ;; Returned (result st).

(** The value of [indent] when the loop is left. *)
Definition final_indent (json : cstring) : outcome Z :=
  st <- run json scan_init ;; Returned (indent st).

Local Close Scope Z_scope.

(** The control part of the loop with the output left out: the depth the
    scan has reached, given its [inString] flag and previous character;
    [None] when a closing brace or bracket is met at depth 0. *)
Fixpoint seen_depth (inStr : bool) (prev : ascii) (depth : nat) (json : cstring)
  : option nat :=
  match json with
  | [] => Some depth
  | c :: rest =>
      let inStr' :=
        if (c =? dquote)%char && negb (prev =? backslash)%char
        then negb inStr else inStr in
      if negb inStr' then
        if (c =? "{")%char || (c =? "[")%char then
          seen_depth inStr' c (S depth) rest
        else if (c =? "}")%char || (c =? "]")%char then
          match depth with
          | O => None
          | S d => seen_depth inStr' c d rest
          end
        else seen_depth inStr' c depth rest
      else seen_depth inStr' c depth rest
  end.

(** *** The marker count of [outputSuccess] (work_orders.cpp, lines 254-261)

    [std::string::find(str, pos)] gives the least position at or after
    [pos] where [str] starts, or [npos] ([None] here). *)

Fixpoint starts_with (marker text : cstring) : bool :=
  match marker, text with
  | [], _ => true
  | _ :: _, [] => false
  | m :: marker', c :: text' => (m =? c)%char && starts_with marker' text'
  end.

Fixpoint find_in (marker rest : cstring) (p : nat) : option nat :=
  if starts_with marker rest then Some p
  else match rest with
       | [] => None
       | _ :: rest' => find_in marker rest' (S p)
       end.

Definition find (text marker : cstring) (pos : nat) : option nat :=
  if (length text <? pos)%nat then None
  else find_in marker (skipn pos text) pos.

(** [while ((pos = text.find(marker, pos)) != npos) { count++; pos++; }] *)
Equations? count_loop (text marker : cstring) (count : Z) (pos : nat) : Z
  by wf (S (length text) - pos) lt :=
  count_loop text marker count pos with inspect (find text marker pos) := {
    | exist _ (Some p) Hfind => count_loop text marker (count + 1) (S p)
    | exist _ None _ => count }.
Proof.
  assert (Hin : forall rest q r, find_in marker rest q = Some r ->
                                 q <= r <= q + length rest).
  { induction rest as [|c rest IH]; intros q r; simpl.
    - destruct (starts_with marker []); [intros [= <-]; simpl; lia | discriminate].
    - destruct (starts_with marker (c :: rest)).
      + intros [= <-]; lia.
      + intros Hr. apply IH in Hr. lia. }
  unfold find in Hfind.
  destruct (Nat.ltb_spec (length text) pos) as [|Hle]; [discriminate|].
  apply Hin in Hfind. rewrite length_skipn in Hfind. destruct pos; lia.
Qed.

Definition countOccurrences (text marker : cstring) : Z :=
  count_loop text marker 0 0.

(** The count that [outputSuccess] prints, with the marker of the source. *)
Definition outputSuccess_count (apiResponse : cstring) : Z :=
  countOccurrences apiResponse (jtext "'Id':").

End JsonWriter.

(** ** JSON texts *)

Module Json.

(** A standard reading of JSON texts (RFC 8259), over bytes.  Bytes of
    multi-byte UTF-8 sequences pass through a string literal as they are;
    numbers are kept as their lexemes. *)

#[warnings="-register-all"] Inductive value : Type :=
| Null
| Bool (b : bool)
| Number (lexeme : cstring)
| Str (s : cstring)
| Array (elements : list value)
| Object (members : list (cstring * value)).

Definition code (c : ascii) : N := N_of_ascii c.

Definition in_range (lo hi : N) (n : N) : bool := ((lo <=? n) && (n <=? hi))%N.

Definition is_ws (c : ascii) : bool :=
  (c =? " ")%char || (c =? LF)%char || (c =? CR)%char || (c =? TAB)%char.

Definition is_digit (c : ascii) : bool := in_range 48 57 (code c).

Definition hex_digit (c : ascii) : option N :=
  let n := code c in
  if in_range 48 57 n then Some (n - 48)%N
  else if in_range 65 70 n then Some (n - 55)%N
  else if in_range 97 102 n then Some (n - 87)%N
  else None.

Definition hex4 (a b c d : ascii) : option N :=
  match hex_digit a, hex_digit b, hex_digit c, hex_digit d with
  | Some x, Some y, Some z, Some w => Some (((x * 16 + y) * 16 + z) * 16 + w)%N
  | _, _, _, _ => None
  end.

Definition simple_escape (x : ascii) : option ascii :=
  if (x =? dquote)%char then Some dquote
  else if (x =? backslash)%char then Some backslash
  else if (x =? "/")%char then Some "/"
  else if (x =? "b")%char then Some "008"
  else if (x =? "f")%char then Some "012"
  else if (x =? "n")%char then Some LF
  else if (x =? "r")%char then Some CR
  else if (x =? "t")%char then Some TAB
  else None.

(** What a string literal denotes before its code units are joined: a byte
    of the text itself, or the 16-bit unit of a [\uXXXX] escape. *)
Inductive item : Type :=
| Byte (c : ascii)
| Unit16 (n : N).

Definition push {A B} (a : A) (r : option (list A * B)) : option (list A * B) :=
  match r with
  | Some (l, rest) => Some (a :: l, rest)
  | None => None
  end.

(** The characters after an opening quote, up to the closing quote. *)
Fixpoint scan_string (s : cstring) : option (list item * cstring) :=
  match s with
  | [] => None
  | c :: rest =>
      if (c =? dquote)%char then Some ([], rest)
      else if (c =? backslash)%char then
        match rest with
        | [] => None
        | x :: rest1 =>
            if (x =? "u")%char then
              match rest1 with
              | h1 :: h2 :: h3 :: h4 :: rest2 =>
                  match hex4 h1 h2 h3 h4 with
                  | Some n => push (Unit16 n) (scan_string rest2)
                  | None => None
                  end
              | _ => None
              end
            else
              match simple_escape x with
              | Some b => push (Byte b) (scan_string rest1)
              | None => None
              end
        end
      else if (code c <? 32)%N then None
      else push (Byte c) (scan_string rest)
  end.

Definition byte_of (n : N) : ascii := ascii_of_N n.

Definition utf8 (cp : N) : cstring :=
  (if cp <? 128 then [byte_of cp]
   else if cp <? 2048 then [byte_of (192 + cp / 64); byte_of (128 + cp mod 64)]
   else if cp <? 65536 then
     [byte_of (224 + cp / 4096); byte_of (128 + (cp / 64) mod 64);
      byte_of (128 + cp mod 64)]
   else
     [byte_of (240 + cp / 262144); byte_of (128 + (cp / 4096) mod 64);
      byte_of (128 + (cp / 64) mod 64); byte_of (128 + cp mod 64)])%N.

Definition prepend (l : cstring) (r : option cstring) : option cstring :=
  match r with
  | Some l' => Some (l ++ l')
  | None => None
  end.

Fixpoint join_items (us : list item) : option cstring :=
  match us with
  | [] => Some []
  | Byte c :: r => prepend [c] (join_items r)
  | Unit16 hi :: r =>
      if in_range 55296 56319 hi then
        match r with
        | Unit16 lo :: r' =>
            if in_range 56320 57343 lo
            then prepend (utf8 (65536 + (hi - 55296) * 1024 + (lo - 56320))%N)
                         (join_items r')
            else None
        | _ => None
        end
      else if in_range 56320 57343 hi then None
      else prepend (utf8 hi) (join_items r)
  end.

Definition parse_string_literal (s : cstring) : option cstring :=
  match s with
  | q :: body =>
      if (q =? dquote)%char then
        match scan_string body with
        | Some (us, []) => join_items us
        | _ => None
        end
      else None
  | [] => None
  end.

Inductive token : Type :=
| TLBrace | TRBrace | TLBracket | TRBracket | TComma | TColon
| TStr (s : cstring) | TNum (lexeme : cstring)
| TTrue | TFalse | TNull.

Fixpoint drop_digits (s : cstring) : cstring :=
  match s with
  | c :: rest => if is_digit c then drop_digits rest else s
  | [] => []
  end.

Definition number_exp (s : cstring) : bool :=
  match s with
  | [] => true
  | e :: r =>
      if (e =? "e")%char || (e =? "E")%char then
        let r' := match r with
                  | sgn :: r1 => if (sgn =? "+")%char || (sgn =? "-")%char then r1 else r
                  | [] => r
                  end in
        match r' with
        | d :: r2 => is_digit d && match drop_digits r2 with [] => true | _ => false end
        | [] => false
        end
      else false
  end.

Definition number_frac (s : cstring) : bool :=
  match s with
  | c :: rest =>
      if (c =? ".")%char then
        match rest with
        | d :: r => is_digit d && number_exp (drop_digits r)
        | [] => false
        end
      else number_exp s
  | [] => true
  end.

Definition valid_number (s : cstring) : bool :=
  let s1 := match s with
            | c :: r => if (c =? "-")%char then r else s
            | [] => s
            end in
  match s1 with
  | d :: r =>
      if (d =? "0")%char then number_frac r
      else is_digit d && number_frac (drop_digits r)
  | [] => false
  end.

Definition number_char (c : ascii) : bool :=
  is_digit c || (c =? "-")%char || (c =? "+")%char || (c =? ".")%char
  || (c =? "e")%char || (c =? "E")%char.

Fixpoint span_number (s : cstring) : cstring * cstring :=
  match s with
  | c :: rest =>
      if number_char c
      then let (n, r) := span_number rest in (c :: n, r)
      else ([], s)
  | [] => ([], [])
  end.

Definition keyword (w : string) (t : token) (s : cstring) : option (token * cstring) :=
  let k := lit w in
  if list_eq_dec ascii_dec (firstn (length k) s) k
  then Some (t, skipn (length k) s) else None.

Definition tcons (t : token) (r : option (list token)) : option (list token) :=
  match r with
  | Some ts => Some (t :: ts)
  | None => None
  end.

Fixpoint lex (fuel : nat) (s : cstring) : option (list token) :=
  match fuel with
  | O => None
  | S fuel' =>
      match s with
      | [] => Some []
      | c :: rest =>
          if is_ws c then lex fuel' rest
          else if (c =? "{")%char then tcons TLBrace (lex fuel' rest)
          else if (c =? "}")%char then tcons TRBrace (lex fuel' rest)
          else if (c =? "[")%char then tcons TLBracket (lex fuel' rest)
          else if (c =? "]")%char then tcons TRBracket (lex fuel' rest)
          else if (c =? ",")%char then tcons TComma (lex fuel' rest)
          else if (c =? ":")%char then tcons TColon (lex fuel' rest)
          else if (c =? dquote)%char then
            match scan_string rest with
            | Some (us, rest') =>
                match join_items us with
                | Some str => tcons (TStr str) (lex fuel' rest')
                | None => None
                end
            | None => None
            end
          else if (c =? "t")%char then
            match keyword "true" TTrue s with
            | Some (t, rest') => tcons t (lex fuel' rest')
            | None => None
            end
          else if (c =? "f")%char then
            match keyword "false" TFalse s with
            | Some (t, rest') => tcons t (lex fuel' rest')
            | None => None
            end
          else if (c =? "n")%char then
            match keyword "null" TNull s with
            | Some (t, rest') => tcons t (lex fuel' rest')
            | None => None
            end
          else
            let (n, rest') := span_number s in
            if valid_number n then tcons (TNum n) (lex fuel' rest') else None
      end
  end.

Fixpoint parse_value (fuel : nat) (ts : list token) : option (value * list token) :=
  match fuel with
  | O => None
  | S fuel' =>
      match ts with
      | TNull :: r => Some (Null, r)
      | TTrue :: r => Some (Bool true, r)
      | TFalse :: r => Some (Bool false, r)
      | TNum n :: r => Some (Number n, r)
      | TStr s :: r => Some (Str s, r)
      | TLBracket :: TRBracket :: r => Some (Array [], r)
      | TLBracket :: r => parse_elements fuel' r []
      | TLBrace :: TRBrace :: r => Some (Object [], r)
      | TLBrace :: r => parse_members fuel' r []
      | _ => None
      end
  end
with parse_elements (fuel : nat) (ts : list token) (acc : list value)
  : option (value * list token) :=
  match fuel with
  | O => None
  | S fuel' =>
      match parse_value fuel' ts with
      | Some (v, TComma :: r) => parse_elements fuel' r (v :: acc)
      | Some (v, TRBracket :: r) => Some (Array (rev (v :: acc)), r)
      | _ => None
      end
  end
with parse_members (fuel : nat) (ts : list token) (acc : list (cstring * value))
  : option (value * list token) :=
  match fuel with
  | O => None
  | S fuel' =>
      match ts with
      | TStr k :: TColon :: r =>
          match parse_value fuel' r with
          | Some (v, TComma :: r') => parse_members fuel' r' ((k, v) :: acc)
          | Some (v, TRBrace :: r') => Some (Object (rev ((k, v) :: acc)), r')
          | _ => None
          end
      | _ => None
      end
  end.

Definition parse (s : cstring) : option value :=
  match lex (S (length s)) s with
  | Some ts =>
      match parse_value (2 * length ts + 2) ts with
      | Some (v, []) => Some v
      | _ => None
      end
  | None => None
  end.


(** Removal of the whitespace that lies outside string literals.  A
    literal runs from a quote to the next quote that no backslash
    escapes. *)
Fixpoint collapse_from (inStr escaped : bool) (s : cstring) : cstring :=
  match s with
  | [] => []
  | c :: rest =>
      if inStr then
        c :: (if escaped then collapse_from true false rest
              else if (c =? backslash)%char then collapse_from true true rest
              else if (c =? dquote)%char then collapse_from false false rest
              else collapse_from true false rest)
      else if is_ws c then collapse_from false false rest
      else c :: collapse_from (c =? dquote)%char false rest
  end.

Definition collapse (s : cstring) : cstring := collapse_from false false s.

(** Nesting depth over the braces and brackets outside string literals;
    [None] when a closer has no opener. *)
Fixpoint depth_from (inStr escaped : bool) (depth : nat) (s : cstring)
  : option nat :=
  match s with
  | [] => Some depth
  | c :: rest =>
      if inStr then
        if escaped then depth_from true false depth rest
        else if (c =? backslash)%char then depth_from true true depth rest
        else if (c =? dquote)%char then depth_from false false depth rest
        else depth_from true false depth rest
      else if (c =? "{")%char || (c =? "[")%char then
        depth_from false false (S depth) rest
      else if (c =? "}")%char || (c =? "]")%char then
        match depth with
        | O => None
        | S d => depth_from false false d rest
        end
      else depth_from (c =? dquote)%char false depth rest
  end.

Definition balanced (s : cstring) : bool :=
  match depth_from false false 0 s with
  | Some O => true
  | _ => false
  end.

(** The same count taken over every brace and bracket of the text, those
    inside string literals included. *)
Fixpoint raw_depth (depth : nat) (s : cstring) : option nat :=
  match s with
  | [] => Some depth
  | c :: rest =>
      if (c =? "{")%char || (c =? "[")%char then raw_depth (S depth) rest
      else if (c =? "}")%char || (c =? "]")%char then
        match depth with
        | O => None
        | S d => raw_depth d rest
        end
      else raw_depth depth rest
  end.

Definition raw_balanced (s : cstring) : bool :=
  match raw_depth 0 s with
  | Some O => true
  | _ => false
  end.

End Json.

(** ** Notions of the specification *)

Module Spec.

(** The mapping table of the escaper, one image per character. *)
Definition escape_image (c : ascii) : cstring :=
  if (c =? dquote)%char then [backslash; dquote]
  else if (c =? backslash)%char then [backslash; backslash]
  else if (c =? LF)%char then [backslash; "n"]
  else if (c =? CR)%char then [backslash; "r"]
  else if (c =? TAB)%char then [backslash; "t"]
  else [c].

(** The characters the table covers: newline, carriage return, tab, and
    everything outside the control range (quote and backslash among them). *)
Definition covered (c : ascii) : bool :=
  (c =? LF)%char || (c =? CR)%char || (c =? TAB)%char
  || (32 <=? Json.code c)%N.

(** Reading an escaped fragment back: a backslash always opens a
    two-character sequence. *)
Fixpoint unescape (e : cstring) : cstring :=
  match e with
  | [] => []
  | c :: rest =>
      if (c =? backslash)%char then
        match rest with
        | [] => [c]
        | x :: rest' =>
            (if (x =? "n")%char then LF
             else if (x =? "r")%char then CR
             else if (x =? "t")%char then TAB
             else x) :: unescape rest'
        end
      else c :: unescape rest
  end.

(** [marker] occurs in [text] starting at position [p]. *)
Definition occurs_at (text marker : cstring) (p : nat) : bool :=
  JsonWriter.starts_with marker (skipn p text).

(** The start positions of [marker] in [text], in increasing order. *)
Definition occurrence_positions (text marker : cstring) : list nat :=
  filter (occurs_at text marker) (seq 0 (S (length text))).

End Spec.

(** ** Exceptions, undefined behaviour and standard output *)

Inductive exn : Type :=
| runtime_error (what : cstring)
| length_error
| out_of_range.

(** How a call ends: with a value, with an exception, or in undefined
    behaviour (a library precondition broken). *)
Inductive res (A : Type) : Type :=
| Ok (a : A)
| Throw (e : exn)
| Undefined.
Arguments Ok {A} a.
Arguments Throw {A} e.
Arguments Undefined {A}.

Definition rbind {A B} (m : res A) (k : A -> res B) : res B :=
  match m with
  | Ok a => k a
  | Throw e => Throw e
  | Undefined => Undefined
  end.

Notation "x <~ m ;; k" := (rbind m (fun x => k))
  (at level 61, m at next level, right associativity).

Definition of_outcome {A} (o : outcome A) : res A :=
  match o with
  | Returned a => Ok a
  | LengthError => Throw length_error
  end.

(** ** [std::string] operations

    Positions and counts are natural numbers; [npos] is [None].  No string
    is as long as [npos], so the only place where the source relies on
    [size_t] wrapping is [npos + 1], which is 0, and [length() - 2] on a
    string of one character, which is [npos]. *)

Module StdString.

Definition mem (c : ascii) (set : cstring) : bool :=
  existsb (fun x => (x =? c)%char) set.

(** [s.find_first_not_of(set)] *)
Fixpoint first_not_of (s set : cstring) (p : nat) : option nat :=
  match s with
  | [] => None
  | c :: rest => if mem c set then first_not_of rest set (S p) else Some p
  end.

Definition find_first_not_of (s set : cstring) : option nat :=
  first_not_of s set 0.

(** [s.find_last_not_of(set)] *)
Fixpoint last_not_of (s set : cstring) (p : nat) (best : option nat)
  : option nat :=
  match s with
  | [] => best
  | c :: rest =>
      last_not_of rest set (S p) (if mem c set then best else Some p)
  end.

Definition find_last_not_of (s set : cstring) : option nat :=
  last_not_of s set 0 None.

(** [s.find(ch)] *)
Fixpoint first_char (s : cstring) (ch : ascii) (p : nat) : option nat :=
  match s with
  | [] => None
  | c :: rest => if (c =? ch)%char then Some p else first_char rest ch (S p)
  end.

Definition find_char (s : cstring) (ch : ascii) : option nat :=
  first_char s ch 0.

(** [p + 1] for a position that may be [npos]. *)
Definition plus_one (p : option nat) : nat :=
  match p with
  | Some n => S n
  | None => 0
  end.

(** [s.length() - 2] as a count. *)
Definition length_minus_2 (s : cstring) : option nat :=
  if (2 <=? length s)%nat then Some (length s - 2) else None.

(** [s.substr(pos, count)]: throws when [pos > size()], otherwise takes
    [min(count, size() - pos)] characters. *)
Definition substr (s : cstring) (pos : nat) (count : option nat) : res cstring :=
  if (length s <? pos)%nat then Throw out_of_range
  else Ok (match count with
           | Some n => firstn n (skipn pos s)
           | None => skipn pos s
           end).

(** [s.erase(pos, count)] *)
Definition erase (s : cstring) (pos : nat) (count : option nat) : res cstring :=
  if (length s <? pos)%nat then Throw out_of_range
  else Ok (firstn pos s ++ match count with
                           | Some n => skipn (pos + n) s
                           | None => []
                           end).

(** [s.front()] and [s.back()] require a non-empty string. *)
Definition front (s : cstring) : res ascii :=
  match s with
  | [] => Undefined
  | c :: _ => Ok c
  end.

Definition back (s : cstring) : res ascii :=
  match s with
  | [] => Undefined
  | c :: rest => Ok (last rest c)
  end.

End StdString.

Module WorkOrders.
Import StdString.

(** *** [parseEnvPath] (work_orders.cpp, lines 297-308)

    [argv] is the whole argument vector; the loop starts at index 1.  The
    [substr(11)] is reached only when [arg] begins with the eleven
    characters of the flag, so its position is within the string. *)

Definition env_path_flag : cstring := lit "--env-path=".

Definition parseEnvPath_step (envPath arg : cstring) : cstring :=
  match JsonWriter.find arg env_path_flag 0 with
  | Some O => skipn 11 arg
  | _ => envPath
  end.

Definition parseEnvPath (argv : list cstring) : cstring :=
  fold_left parseEnvPath_step (tl argv) (lit "../.env").

(** *** [loadEnvFile] (work_orders.cpp, lines 125-166) *)

(** [std::map<std::string, std::string>] with [operator[]] assignment and
    [find]. *)
Definition env_map := list (cstring * cstring).

Definition key_eqb (a b : cstring) : bool :=
  if list_eq_dec ascii_dec a b then true else false.

Fixpoint map_set (k v : cstring) (m : env_map) : env_map :=
  match m with
  | [] => [(k, v)]
  | (k', v') :: m' =>
      if key_eqb k' k then (k, v) :: m' else (k', v') :: map_set k v m'
  end.

Fixpoint map_find (k : cstring) (m : env_map) : option cstring :=
  match m with
  | [] => None
  | (k', v') :: m' => if key_eqb k' k then Some v' else map_find k m'
  end.

(** The lines [std::getline] yields for a file's content: split at newline
    characters; a final line without newline is still read, and nothing is
    read once the content is used up. *)
Fixpoint getlines (content cur : cstring) : list cstring :=
  match content with
  | [] => match cur with [] => [] | _ => [rev cur] end
  | c :: rest =>
      if (c =? LF)%char then rev cur :: getlines rest []
      else getlines rest (c :: cur)
  end.

Definition blanks4 : cstring := [" "; TAB; CR; LF].
Definition blanks2 : cstring := [" "; TAB].

Inductive line_entry : Type :=
| Skip
| Assign (key value : cstring).

(** Lines 152-155: [s.erase(0, s.find_first_not_of(" \t"))] followed by
    [s.erase(s.find_last_not_of(" \t") + 1)]. *)
Definition trim_blanks (s : cstring) : res cstring :=
  s <~ erase s 0 (find_first_not_of s blanks2) ;;
  erase s (plus_one (find_last_not_of s blanks2)) None.

(** Lines 157-160: the test for surrounding quotes, with [&&] and [||]
    evaluated left to right, and their removal. *)
Definition unquote (value : cstring) : res cstring :=
  c1 <~ (f <~ front value ;;
         if (f =? dquote)%char
         then b <~ back value ;; Ok (b =? dquote)%char
         else Ok false) ;;
  quoted <~ (if c1 : bool then Ok true
             else f <~ front value ;;
                  if (f =? "'")%char
                  then b <~ back value ;; Ok (b =? "'")%char
                  else Ok false) ;;
  if quoted : bool then substr value 1 (length_minus_2 value) else Ok value.

(** The body of the [while] loop for one line. *)
Definition env_line (line : cstring) : res line_entry :=
  match find_first_not_of line blanks4 with
  | None => Ok Skip
  | Some start =>
      line <~ substr line start None ;;
      line <~ match find_last_not_of line blanks4 with
              | Some end_ => substr line 0 (Some (end_ + 1))
              | None => Ok line
              end ;;
      match line with
      | [] => Ok Skip
      | c0 :: _ =>
          if (c0 =? "#")%char then Ok Skip else
          match find_char line "=" with
          | None => Ok Skip
          | Some pos =>
              key <~ substr line 0 (Some pos) ;;
              value <~ substr line (pos + 1) None ;;
              key <~ trim_blanks key ;;
              value <~ trim_blanks value ;;
              value <~ unquote value ;;
              Ok (Assign key value)
          end
      end
  end.

Fixpoint env_lines (lines : list cstring) (env : env_map) : res env_map :=
  match lines with
  | [] => Ok env
  | line :: rest =>
      e <~ env_line line ;;
      match e with
      | Skip => env_lines rest env
      | Assign key value => env_lines rest (map_set key value env)
      end
  end.

(** The file system as the program sees it: the content of the file at a
    path, if it can be opened. *)
Definition files := cstring -> option cstring.

Definition loadEnvFile (fs : files) (filepath : cstring) : res env_map :=
  match fs filepath with
  | None => Throw (runtime_error (lit "Failed to open .env file: " ++ filepath))
  | Some content => env_lines (getlines content []) []
  end.

(** *** Standard output

    A computation may append to [std::cout] before it ends. *)

Definition io (A : Type) : Type := cstring -> res A * cstring.

Definition io_ret {A} (a : A) : io A := fun out => (Ok a, out).

Definition io_bind {A B} (m : io A) (k : A -> io B) : io B :=
  fun out =>
    match m out with
    | (Ok a, out') => k a out'
    | (Throw e, out') => (Throw e, out')
    | (Undefined, out') => (Undefined, out')
    end.

Definition lift {A} (r : res A) : io A := fun out => (r, out).

Definition cout (s : cstring) : io unit := fun out => (Ok tt, out ++ s).

Definition try_catch (m : io unit) (handler : exn -> io unit) : io unit :=
  fun out =>
    match m out with
    | (Throw e, out') => handler e out'
    | r => r
    end.

Notation "x <<- m ;; k" := (io_bind m (fun x => k))
  (at level 61, m at next level, right associativity).
Notation "m ;;; k" := (io_bind m (fun _ => k))
  (at level 61, right associativity).

(** [operator<<] for [int] and [std::to_string] for [long]. *)
Definition decimal (z : Z) : cstring := lit (NilZero.string_of_int (Z.to_int z)).

(** A [const char*] read into a [std::string]: the characters up to the
    first NUL. *)
Fixpoint c_str (s : cstring) : cstring :=
  match s with
  | [] => []
  | c :: rest => if (c =? NUL)%char then [] else c :: c_str rest
  end.

(** *** [outputSuccess] and [outputError] (work_orders.cpp, lines 254-285) *)

Definition outputSuccess (apiResponse : cstring) : io unit :=
  let count := JsonWriter.outputSuccess_count apiResponse in
  formattedData <<- lift (of_outcome (JsonWriter.prettyPrint apiResponse)) ;;
  cout (jtext "{" ++ [LF]) ;;;
  cout (jtext "  'success': true," ++ [LF]) ;;;
  cout (jtext "  'count': ") ;;; cout (decimal count) ;;; cout (jtext "," ++ [LF]) ;;;
  cout (jtext "  'data': ") ;;; cout formattedData ;;; cout [LF] ;;;
  cout (jtext "}") ;;; cout [LF].

Definition outputError (message : cstring) : io unit :=
  cout (jtext "{" ++ [LF]) ;;;
  cout (jtext "  'success': false," ++ [LF]) ;;;
  cout (jtext "  'message': '") ;;; cout (JsonWriter.escape message) ;;;
  cout (jtext "'" ++ [LF]) ;;;
  cout (jtext "}") ;;; cout [LF].

(** *** [writeCallback] and [fetchWorkOrders] (work_orders.cpp, lines 179-241)

    libcurl is a parameter: whether [curl_easy_init] gives a handle, what a
    transfer to a URL with given headers yields (the [CURLcode], the chunks
    handed to the write callback, the HTTP status), and the text of
    [curl_easy_strerror]. *)

Record curl : Type := mkCurl
  { easy_init : bool;
    easy_perform : cstring -> list cstring -> N * list cstring * Z;
    easy_strerror : N -> cstring }.

Definition CURLE_OK : N := 0.

Definition writeCallback (response contents : cstring) : cstring :=
  response ++ contents.

Definition fetchWorkOrders (net : curl) (apiKey : cstring) : res cstring :=
  if negb (easy_init net) then
    Throw (runtime_error (lit "Failed to initialize cURL"))
  else
    let url := lit "https://app.innergy.com/api/projectWorkOrders" in
    let headers := [lit "Accept: application/json";
                    c_str (lit "Api-Key: " ++ apiKey)] in
    let '(code, chunks, httpCode) := easy_perform net url headers in
    let response := fold_left writeCallback chunks [] in
    if negb (code =? CURLE_OK)%N then
      Throw (runtime_error (lit "cURL error: " ++ c_str (easy_strerror net code)))
    else if (httpCode <? 200)%Z || (httpCode >=? 300)%Z then
      Throw (runtime_error (lit "API returned status " ++ decimal httpCode))
    else Ok response.

(** *** [main] (work_orders.cpp, lines 323-344) *)

(** [e.what()] as [outputError] receives it; the text for the library's
    own exceptions is left to the implementation. *)
Record library : Type := mkLibrary
  { what_length_error : cstring; what_out_of_range : cstring }.

Definition what (lib : library) (e : exn) : cstring :=
  match e with
  | runtime_error w => c_str w
  | length_error => what_length_error lib
  | out_of_range => what_out_of_range lib
  end.

Definition API_KEY : cstring := lit "API_KEY".

Definition main_body (fs : files) (net : curl) (argv : list cstring) : io unit :=
  let envPath := parseEnvPath argv in
  env <<- lift (loadEnvFile fs envPath) ;;
  match map_find API_KEY env with
  | None => lift (Throw (runtime_error (lit "API_KEY not found in .env file")))
  | Some key =>
      match key with
      | [] => lift (Throw (runtime_error (lit "API_KEY not found in .env file")))
      | _ :: _ =>
          response <<- lift (fetchWorkOrders net key) ;;
          outputSuccess response
      end
  end.

(** What [main] has written to standard output when it returns. *)
Definition main (lib : library) (fs : files) (net : curl) (argv : list cstring)
  : res unit * cstring :=
  try_catch (main_body fs net argv) (fun e => outputError (what lib e)) [].

End WorkOrders.


(** ** Notions used in the statements about the rest of the program *)

Module Shapes.
Import StdString WorkOrders.

(** The five characters that [escape] rewrites. *)
Definition special (c : ascii) : bool :=
  (c =? dquote)%char || (c =? backslash)%char || (c =? LF)%char
  || (c =? CR)%char || (c =? TAB)%char.

(** The characters [prettyPrint] treats as layout outside strings. *)
Definition layout (c : ascii) : bool :=
  (c =? "{")%char || (c =? "[")%char || (c =? "}")%char || (c =? "]")%char
  || (c =? ",")%char || (c =? ":")%char
  || (c =? " ")%char || (c =? LF)%char || (c =? CR)%char || (c =? TAB)%char.

(** Two scans that agree on everything but the text written so far, neither
    of them just past a backslash. *)
Definition sim (st st2 : JsonWriter.scan) : Prop :=
  JsonWriter.inString st2 = JsonWriter.inString st
  /\ JsonWriter.indent st2 = JsonWriter.indent st
  /\ JsonWriter.prevChar st <> backslash
  /\ JsonWriter.prevChar st2 <> backslash.

(** Every character of [s] belongs to [set]. *)
Definition all_in (set s : cstring) : bool := forallb (fun c => mem c set) s.

(** A key as it can stand in a line: not empty, no blank at either end, not
    opening a comment, no equals sign. *)
Definition key_text (k : cstring) : bool :=
  match k with
  | [] => false
  | c :: _ =>
      negb (mem c blanks4) && negb (c =? "#")%char
      && negb (mem (last k c) blanks2) && negb (mem "=" k)
  end.

(** A value as it can stand in a line: not empty, no blank at either end. *)
Definition value_text (v : cstring) : bool :=
  match v with
  | [] => false
  | c :: _ => negb (mem c blanks2) && negb (mem (last v c) blanks4)
  end.

(** Neither end of a non-empty text is a space or a tab. *)
Definition value_text_ends (s : cstring) : bool :=
  match s with
  | [] => false
  | c :: _ => negb (mem c blanks2) && negb (mem (last s c) blanks2)
  end.

(** One pair of matching quotes around a value, removed. *)
Definition strip_quotes (v : cstring) : cstring :=
  match v with
  | [] => []
  | q :: rest =>
      if ((q =? dquote)%char || (q =? "'")%char) && (last rest q =? q)%char
      then removelast rest else v
  end.

(** The text around the message of the error envelope. *)
Definition error_head : cstring :=
  jtext "{" ++ [LF] ++ jtext "  'success': false," ++ [LF] ++ jtext "  'message': '".

Definition error_tail : cstring := jtext "'" ++ [LF] ++ jtext "}" ++ [LF].

Definition error_text (message : cstring) : cstring :=
  error_head ++ JsonWriter.escape message ++ error_tail.

(** The success envelope around a count and the reformatted response. *)
Definition success_text (count : Z) (formattedData : cstring) : cstring :=
  jtext "{" ++ [LF] ++ jtext "  'success': true," ++ [LF]
  ++ jtext "  'count': " ++ decimal count ++ jtext "," ++ [LF]
  ++ jtext "  'data': " ++ formattedData ++ [LF] ++ jtext "}" ++ [LF].

(** The request [fetchWorkOrders] makes. *)
Definition request_url : cstring :=
  lit "https://app.innergy.com/api/projectWorkOrders".

Definition request_headers (apiKey : cstring) : list cstring :=
  [lit "Accept: application/json"; c_str (lit "Api-Key: " ++ apiKey)].

End Shapes.

(** ** Sample surroundings for the examples *)

Module Sample.
Import WorkOrders.

(** A file system holding one file, at the default path. *)
Definition fs_with (content : cstring) : files :=
  fun filepath => if key_eqb filepath (lit "../.env") then Some content else None.

(** A network that answers every transfer in the same way. *)
Definition net_with (code : N) (chunks : list cstring) (httpCode : Z) : curl :=
  mkCurl true (fun _ _ => (code, chunks, httpCode))
         (fun _ => lit "Timeout was reached").

Definition lib : library :=
  mkLibrary (lit "basic_string::_M_create") (lit "basic_string::substr").

Definition env_two_keys : cstring :=
  jlines ["# settings"; "API_KEY = old"; "API_KEY='new'"; "OTHER=1"; ""]%string.

End Sample.

(** ** Concrete scenarios of the specification *)

Example scenario_nested_object :
  JsonWriter.prettyPrint (jtext "{'a':1,'b':[1,2,3]}")
  = Returned (jlines ["{"; "  'a': 1,"; "  'b': ["; "    1,"; "    2,";
                      "    3"; "  ]"; "}"]%string).
Proof. reflexivity. Qed.

Example scenario_escape_in_string :
  JsonWriter.prettyPrint (jtext "{'note':'line1\nline2'}")
  = Returned (jlines ["{"; "  'note': 'line1\nline2'"; "}"]%string).
Proof. reflexivity. Qed.

Example scenario_escape :
  JsonWriter.escape (jtext "He said 'hi'" ++ [LF])
  = lit "He said \" ++ dquote :: lit "hi\" ++ dquote :: lit "\n".
Proof. reflexivity. Qed.

Example scenario_count :
  JsonWriter.countOccurrences (jtext "{'Id':1},{'Id':2}") (jtext "'Id':") = 2%Z.
Proof. reflexivity. Qed.

(** An empty marker is found at every position, the end included. *)
Example count_empty_marker :
  JsonWriter.countOccurrences (lit "abc") [] = 4%Z.
Proof. reflexivity. Qed.

(** Overlapping occurrences are counted once per start position. *)
Example count_overlapping :
  JsonWriter.countOccurrences (lit "aaaa") (lit "aa") = 3%Z.
Proof. reflexivity. Qed.

Example scenario_empty :
  JsonWriter.prettyPrint [] = Returned []
  /\ JsonWriter.countOccurrences [] (jtext "'Id':") = 0%Z.
Proof. split; reflexivity. Qed.

(** The gap the specification records for the escaper: a control
    character outside the table reaches the literal raw, and the literal is
    rejected. *)
Example bell_not_covered :
  Json.parse_string_literal (dquote :: JsonWriter.escape ["007"] ++ [dquote])
  = None.
Proof. reflexivity. Qed.

(** ** Properties of [escape] *)

Section EscapeFacts.
Import JsonWriter Spec.

Lemma escape_step_image result c :
  escape_step result c = result ++ escape_image c.
Proof.
  unfold escape_step, escape_image.
  repeat (destruct (_ =? _)%char; [reflexivity|]). reflexivity.
Qed.

Lemma fold_escape_step s : forall acc,
  fold_left escape_step s acc = acc ++ flat_map escape_image s.
Proof.
  induction s as [|c s IH]; intros acc; simpl.
  - now rewrite app_nil_r.
  - rewrite IH, escape_step_image, <- app_assoc. reflexivity.
Qed.

Lemma escape_flat_map s : escape s = flat_map escape_image s.
Proof. unfold escape. now rewrite fold_escape_step. Qed.

Lemma unescape_image c rest :
  unescape (escape_image c ++ rest) = c :: unescape rest.
Proof.
  unfold escape_image.
  destruct (Ascii.eqb_spec c dquote) as [->|Hq]; [reflexivity|].
  destruct (Ascii.eqb_spec c backslash) as [->|Hb]; [reflexivity|].
  destruct (Ascii.eqb_spec c LF) as [->|Hn]; [reflexivity|].
  destruct (Ascii.eqb_spec c CR) as [->|Hr]; [reflexivity|].
  destruct (Ascii.eqb_spec c TAB) as [->|Ht]; [reflexivity|].
  simpl. destruct (Ascii.eqb_spec c backslash); [contradiction|reflexivity].
Qed.

Lemma unescape_escape s : unescape (escape s) = s.
Proof.
  rewrite escape_flat_map.
  induction s as [|c s IH]; simpl; [reflexivity|].
  now rewrite unescape_image, IH.
Qed.

(** The literal scanner reads the image of a covered character as that
    character. *)
Lemma scan_string_image c tl :
  covered c = true ->
  Json.scan_string (escape_image c ++ tl)
  = Json.push (Json.Byte c) (Json.scan_string tl).
Proof.
  unfold escape_image, covered. intros Hc.
  destruct (Ascii.eqb_spec c dquote) as [->|Hq]; [reflexivity|].
  destruct (Ascii.eqb_spec c backslash) as [->|Hb]; [reflexivity|].
  destruct (Ascii.eqb_spec c LF) as [->|Hn]; [reflexivity|].
  destruct (Ascii.eqb_spec c CR) as [->|Hr]; [reflexivity|].
  destruct (Ascii.eqb_spec c TAB) as [->|Ht]; [reflexivity|].
  cbn [app Json.scan_string orb] in *.
  destruct (Ascii.eqb_spec c dquote); [contradiction|].
  destruct (Ascii.eqb_spec c backslash); [contradiction|].
  apply N.leb_le in Hc.
  destruct (N.ltb_spec (Json.code c) 32); [lia|reflexivity].
Qed.

Lemma scan_string_escape s : forall tl,
  forallb covered s = true ->
  Json.scan_string (escape s ++ dquote :: tl) = Some (map Json.Byte s, tl).
Proof.
  rewrite escape_flat_map.
  induction s as [|c s IH]; intros tl Hs; simpl in *.
  - reflexivity.
  - apply andb_prop in Hs. destruct Hs as [Hc Hs].
    rewrite <- app_assoc, scan_string_image, IH by assumption. reflexivity.
Qed.

Lemma join_items_bytes s : Json.join_items (map Json.Byte s) = Some s.
Proof.
  induction s as [|c s IH]; simpl; [reflexivity|]. now rewrite IH.
Qed.

End EscapeFacts.

(** C3. [escape s] is the in-order concatenation of the images of the
    characters of [s] under the specification's table: quote, backslash,
    newline, carriage return and tab become two-character sequences, every
    other character is kept. *)
Theorem escape_is_concat_of_images (s : cstring) :
  JsonWriter.escape s = concat (map Spec.escape_image s).
Proof.
  rewrite escape_flat_map. apply flat_map_concat_map.
Qed.

(** C9. [escape] distributes over concatenation and maps the empty string
    to the empty string, so a string can be escaped in chunks. *)
Theorem escape_app_distr :
  (forall s t : cstring,
      JsonWriter.escape (s ++ t) = JsonWriter.escape s ++ JsonWriter.escape t)
  /\ JsonWriter.escape [] = [].
Proof.
  split; [|reflexivity].
  intros s t. rewrite !escape_flat_map. apply flat_map_app.
Qed.

(** C10. [escape] is injective: equal escaped fragments come from equal
    inputs. *)
Theorem escape_injective (s t : cstring) :
  JsonWriter.escape s = JsonWriter.escape t -> s = t.
Proof.
  intros H. rewrite <- (unescape_escape s), <- (unescape_escape t).
  now rewrite H.
Qed.

Lemma escape_injective_witness :
  JsonWriter.escape (jtext "a'b\") = JsonWriter.escape (jtext "a'b\")
  /\ jtext "a'b\" = jtext "a'b\".
Proof.
  split; [reflexivity|].
  apply (escape_injective (jtext "a'b\") (jtext "a'b\")). reflexivity.
Defined.

(** C7. When [s] holds only quotes, backslashes, newlines, carriage
    returns, tabs and characters outside the control range, [escape s]
    between double quotes is a JSON string literal, and the literal decodes
    to [s]. *)
Theorem escape_quoted_roundtrip (s : cstring) :
  forallb Spec.covered s = true ->
  Json.parse_string_literal (dquote :: JsonWriter.escape s ++ [dquote])
  = Some s.
Proof.
  intros Hs. unfold Json.parse_string_literal.
  cbn [Ascii.eqb Bool.eqb dquote andb].
  change (Ascii false true false false false true false false) with dquote.
  rewrite scan_string_escape by assumption. apply join_items_bytes.
Qed.

Lemma escape_quoted_roundtrip_witness :
  forallb Spec.covered (jtext "He said 'hi'\" ++ [LF; TAB; CR]) = true
  /\ Json.parse_string_literal
       (dquote :: JsonWriter.escape (jtext "He said 'hi'\" ++ [LF; TAB; CR])
               ++ [dquote])
     = Some (jtext "He said 'hi'\" ++ [LF; TAB; CR]).
Proof.
  split; [reflexivity|].
  apply (escape_quoted_roundtrip (jtext "He said 'hi'\" ++ [LF; TAB; CR])).
  reflexivity.
Defined.

(** ** Properties of [prettyPrint] *)

Section ScanFacts.
Import JsonWriter.
Local Open Scope Z_scope.

Lemma fill_Returned count ch pad :
  fill count ch = Returned pad ->
  0 <= count /\ Z.of_nat (length pad) = count.
Proof.
  unfold fill. destruct (Z.ltb_spec count 0); [discriminate|].
  intros [= <-]. rewrite repeat_length. lia.
Qed.

Lemma step_bound st c st' :
  step st c = Returned st' ->
  0 <= indent st ->
  0 <= indent st' <= indent st + 1
  /\ Z.of_nat (length (result st'))
     <= Z.of_nat (length (result st)) + 2 * indent st + 4.
Proof.
  unfold step. intros H Hk.
  repeat match type of H with
         | (if ?b then _ else _) = _ => destruct b
         | bind (fill ?n ?ch) _ = _ =>
             let E := fresh "E" in
             destruct (fill n ch) eqn:E; simpl in H;
             [apply fill_Returned in E|discriminate]
         end;
    injection H as <-; cbn [indent result app];
    repeat (rewrite ?length_app; cbn [length app]); lia.
Qed.

Lemma run_bound json : forall st st',
  run json st = Returned st' ->
  0 <= indent st ->
  let n := Z.of_nat (length json) in
  0 <= indent st' <= indent st + n
  /\ Z.of_nat (length (result st'))
     <= Z.of_nat (length (result st)) + n * (n + 2 * indent st + 3).
Proof.
  induction json as [|c json IH]; intros st st' H Hk; simpl in H.
  - injection H as <-. simpl. lia.
  - destruct (step st c) as [st1|] eqn:E; simpl in H; [|discriminate].
    apply step_bound in E; [|assumption].
    apply IH in H; [|lia]. cbv zeta in *.
    rewrite length_cons, Nat2Z.inj_succ.
    set (n := Z.of_nat (length json)) in *.
    assert (0 <= n) by (subst n; lia).
    split; [lia|nia].
Qed.

Lemma run_app a : forall b st,
  run (a ++ b) st = (st1 <- run a st ;; run b st1).
Proof.
  induction a as [|c a IH]; intros b st; simpl; [reflexivity|].
  destruct (step st c); simpl; [apply IH | reflexivity].
Qed.

(** The loop and its control part agree: the call returns with [indent]
    at the depth reached, or throws where the depth would fall below 0. *)
Lemma run_seen_depth json : forall st d,
  indent st = Z.of_nat d ->
  match seen_depth (inString st) (prevChar st) d json with
  | Some d' => exists st', run json st = Returned st' /\ indent st' = Z.of_nat d'
  | None => run json st = LengthError
  end.
Proof.
  induction json as [|c json IH]; intros st d Hd.
  - simpl. now exists st.
  - cbn [run seen_depth]. unfold step.
    set (i := if (c =? dquote)%char && negb (prevChar st =? backslash)%char
              then negb (inString st) else inString st).
    cbv zeta. destruct i; cbn [negb].
    + cbn [bind]. apply (IH (mkScan _ _ true c) d). exact Hd.
    + destruct ((c =? "{")%char || (c =? "[")%char).
      { unfold fill. destruct (Z.ltb_spec ((indent st + 1) * 2) 0); [lia|].
        cbn [bind]. apply (IH (mkScan _ _ false c) (S d)). cbn [indent]. lia. }
      destruct ((c =? "}")%char || (c =? "]")%char).
      { unfold fill. destruct d as [|d].
        - destruct (Z.ltb_spec ((indent st - 1) * 2) 0); [reflexivity|lia].
        - destruct (Z.ltb_spec ((indent st - 1) * 2) 0); [lia|].
          cbn [bind]. apply (IH (mkScan _ _ false c) d). cbn [indent]. lia. }
      destruct (c =? ",")%char.
      { unfold fill. destruct (Z.ltb_spec (indent st * 2) 0); [lia|].
        cbn [bind]. apply (IH (mkScan _ _ false c) d). exact Hd. }
      destruct (c =? ":")%char.
      { cbn [bind]. apply (IH (mkScan _ _ false c) d). exact Hd. }
      destruct (negb (c =? " ")%char && negb (c =? LF)%char
                && negb (c =? CR)%char && negb (c =? TAB)%char);
        cbn [bind]; apply (IH (mkScan _ _ false c) d); exact Hd.
Qed.

(** Where the text holds no backslash, the one-character lookback and
    JSON's own string boundaries agree, and balanced brackets bring
    [indent] back to 0. *)
Lemma seen_depth_without_backslash json : forall inStr prev d,
  prev <> backslash ->
  Forall (fun c => c <> backslash) json ->
  seen_depth inStr prev d json = Json.depth_from inStr false d json.
Proof.
  induction json as [|c json IH]; intros inStr prev d Hp Hj; [reflexivity|].
  inversion Hj as [|? ? Hc Hj']; subst.
  cbn [seen_depth Json.depth_from].
  destruct (Ascii.eqb_spec prev backslash); [contradiction|].
  destruct (Ascii.eqb_spec c backslash); [contradiction|].
  destruct (Ascii.eqb_spec c dquote) as [->|Hq]; cbn [andb negb].
  - destruct inStr; cbn; apply IH; assumption.
  - destruct inStr; cbn [negb]; [apply IH; assumption|].
    destruct ((c =? "{")%char || (c =? "[")%char); [apply IH; assumption|].
    destruct ((c =? "}")%char || (c =? "]")%char);
      [destruct d|]; try reflexivity; apply IH; assumption.
Qed.

Lemma indent_zero_without_backslash json :
  Forall (fun c => c <> backslash) json ->
  Json.balanced json = true ->
  final_indent json = Returned 0.
Proof.
  intros Hj Hb. unfold Json.balanced in Hb.
  pose proof (run_seen_depth json scan_init 0 eq_refl) as H.
  cbn [inString prevChar scan_init] in H.
  rewrite seen_depth_without_backslash in H by (assumption || discriminate).
  destruct (Json.depth_from false false 0 json) as [[|d]|]; try discriminate.
  destruct H as (st & Hr & Hi). unfold final_indent. rewrite Hr. cbn [bind].
  now rewrite Hi.
Qed.

(** In a run that returns, [indent] is not negative after any prefix. *)
Lemma indent_nonneg_on_prefix pre post st :
  run (pre ++ post) scan_init = Returned st ->
  exists st1, run pre scan_init = Returned st1 /\ 0 <= indent st1.
Proof.
  rewrite run_app. destruct (run pre scan_init) as [st1|] eqn:E; [|discriminate].
  intros _. exists st1. split; [reflexivity|].
  apply run_bound in E; [|simpl; lia]. lia.
Qed.

(** The [int] of the source is wide enough on inputs below 2^30
    characters: neither [indent] nor [indent * 2] leaves its range. *)
Lemma indent_fits_int json st :
  run json scan_init = Returned st ->
  Z.of_nat (length json) < 2 ^ 30 ->
  0 <= indent st * 2 < 2 ^ 31.
Proof.
  intros H Hn. apply run_bound in H; [|simpl; lia]. simpl in H. lia.
Qed.

Lemma run_openers n : forall st,
  inString st = false ->
  0 <= indent st ->
  exists st',
    run (repeat "["%char n) st = Returned st'
    /\ inString st' = false
    /\ indent st' = indent st + Z.of_nat n
    /\ Z.of_nat (length (result st'))
       = Z.of_nat (length (result st))
         + Z.of_nat n * (Z.of_nat n + 2 * indent st + 3).
Proof.
  induction n as [|n IH]; intros st Hs Hk.
  - exists st. simpl. repeat split; auto; lia.
  - cbn [repeat run]. unfold step at 1. cbn [Ascii.eqb Bool.eqb andb orb negb dquote].
    rewrite Hs. cbn [negb]. unfold fill.
    destruct (Z.ltb_spec ((indent st + 1) * 2) 0); [lia|]. cbn [bind].
    match goal with |- context [run _ ?s] => destruct (IH s) as (st' & Hr & Hs' & Hi & Hl) end;
      [reflexivity|simpl; lia|].
    exists st'. rewrite Hr. cbn [indent result] in Hi, Hl.
    rewrite !length_app, repeat_length in Hl. cbn [length] in Hl.
    repeat split; auto; [lia|nia].
Qed.

End ScanFacts.

(** C5 (as the code has it). Whenever [prettyPrint] returns, its result is
    at most [n * (n + 3)] characters long for an input of [n] characters:
    each character adds at most two characters and the current padding. *)
Theorem prettyPrint_output_quadratic (s out : cstring) :
  JsonWriter.prettyPrint s = Returned out ->
  length out <= length s * (length s + 3).
Proof.
  unfold JsonWriter.prettyPrint.
  destruct (JsonWriter.run s JsonWriter.scan_init) as [st|] eqn:E; [|discriminate].
  intros [= <-]. apply run_bound in E; [|simpl; lia]. simpl in E. nia.
Qed.

Lemma prettyPrint_output_quadratic_witness :
  JsonWriter.prettyPrint (jtext "[[1]]")
  = Returned (jlines ["["; "  ["; "    1"; "  ]"; "]"]%string)
  /\ length (jlines ["["; "  ["; "    1"; "  ]"; "]"]%string) <= 5 * (5 + 3).
Proof.
  split; [reflexivity|].
  apply (prettyPrint_output_quadratic (jtext "[[1]]")). reflexivity.
Defined.

(** The bound is attained: [n] opening brackets give [n * (n + 3)]
    characters. *)
Lemma prettyPrint_openers n :
  exists out, JsonWriter.prettyPrint (repeat "["%char n) = Returned out
              /\ length out = n * (n + 3).
Proof.
  destruct (run_openers n JsonWriter.scan_init) as (st & Hr & _ & _ & Hl);
    [reflexivity|simpl; lia|].
  exists (JsonWriter.result st). unfold JsonWriter.prettyPrint. rewrite Hr.
  split; [reflexivity|]. simpl in Hl. nia.
Qed.

(** C5 (as stated) fails: no linear function of the input length bounds
    the length of the result. *)
Lemma prettyPrint_not_linear :
  ~ exists a b : nat, forall s out,
      JsonWriter.prettyPrint s = Returned out ->
      length out <= a * length s + b.
Proof.
  intros (a & b & H).
  destruct (prettyPrint_openers (a + b + 1)) as (out & Hp & Hl).
  apply H in Hp. rewrite repeat_length in Hp. nia.
Qed.

(** C2 (as stated) fails: on the specification's own input with one
    closing brace too many, [indent] is decremented to -1 and the padding
    constructor throws, so not every call returns. *)
Lemma prettyPrint_extra_closer_throws :
  JsonWriter.prettyPrint (jtext "{}}") = LengthError
  /\ ~ (forall s, exists out, JsonWriter.prettyPrint s = Returned out).
Proof.
  assert (E : JsonWriter.prettyPrint (jtext "{}}") = LengthError) by reflexivity.
  split; [exact E|].
  intros H. destruct (H (jtext "{}}")) as (out & Hout).
  rewrite E in Hout. discriminate.
Qed.

(** C2 (as the code has it). There is no clamp.  [prettyPrint] returns
    exactly on the inputs in which every closing brace or bracket met
    outside a string finds [indent] above zero, the empty string among
    them, and then leaves [indent] at the depth reached, which is not
    negative; on the other inputs the call ends in [std::length_error]. *)
Theorem prettyPrint_returns_unless_underflow (s : cstring) :
  match JsonWriter.seen_depth false NUL 0 s with
  | Some d =>
      (exists out, JsonWriter.prettyPrint s = Returned out)
      /\ JsonWriter.final_indent s = Returned (Z.of_nat d)
  | None => JsonWriter.prettyPrint s = LengthError
  end.
Proof.
  pose proof (run_seen_depth s JsonWriter.scan_init 0 eq_refl) as H.
  cbn [JsonWriter.inString JsonWriter.prevChar JsonWriter.scan_init] in H.
  unfold JsonWriter.prettyPrint, JsonWriter.final_indent.
  destruct (JsonWriter.seen_depth false NUL 0 s) as [d|].
  - destruct H as (st & -> & Hd). cbn [bind]. rewrite Hd.
    split; [now exists (JsonWriter.result st) | reflexivity].
  - now rewrite H.
Qed.

(** C1. A string that ends in an escaped backslash leaves [inString] set
    after its closing quote; the next string is then taken for structure
    and loses its space.  Input and output are both JSON texts, with
    different values. *)
Theorem prettyPrint_changes_value :
  let J := jtext "['\\','a b']" in
  let P := jlines ["["; "  '\\','ab']"]%string in
  Json.parse J = Some (Json.Array [Json.Str (lit "\"); Json.Str (lit "a b")])
  /\ JsonWriter.prettyPrint J = Returned P
  /\ Json.parse P = Some (Json.Array [Json.Str (lit "\"); Json.Str (lit "ab")]).
Proof. cbv zeta. repeat split; reflexivity. Qed.

(** C6. On a JSON text whose brackets are balanced, both outside its
    string literals and over the whole text, the loop ends with [indent]
    at 1: the bracket inside the second string is counted, the last closing
    bracket is not. *)
Theorem indent_not_zero_on_balanced_text :
  let J := jtext "['\\','[',']']" in
  Json.parse J
  = Some (Json.Array [Json.Str (lit "\"); Json.Str (lit "["); Json.Str (lit "]")])
  /\ Json.balanced J = true
  /\ Json.raw_balanced J = true
  /\ JsonWriter.final_indent J = Returned 1%Z.
Proof. cbv zeta. repeat split; reflexivity. Qed.

(** C8. For a compact JSON text [J], collapsing the whitespace of
    [prettyPrint J] outside string literals and reformatting again gives a
    text that differs from [prettyPrint J]: the space dropped from the
    second string of [J] changes which quote follows a backslash. *)
Theorem prettyPrint_not_idempotent_after_collapse :
  let J := jtext "['\\','\\ ']" in
  let P := jlines ["["; "  '\\','\\']"]%string in
  let P' := jlines ["["; "  '\\','\\'"; "]"]%string in
  Json.parse J = Some (Json.Array [Json.Str (lit "\"); Json.Str (lit "\ ")])
  /\ Json.collapse J = J
  /\ JsonWriter.prettyPrint J = Returned P
  /\ Json.collapse P = jtext "['\\','\\']"
  /\ JsonWriter.prettyPrint (Json.collapse P) = Returned P'
  /\ P' <> P.
Proof. cbv zeta. repeat split; try reflexivity. discriminate. Qed.

(** ** Properties of the marker count *)

Section CountFacts.
Import JsonWriter Spec.

Lemma find_in_Some marker : forall rest q r,
  find_in marker rest q = Some r ->
  q <= r <= q + length rest
  /\ starts_with marker (skipn (r - q) rest) = true
  /\ forall i, i < r - q -> starts_with marker (skipn i rest) = false.
Proof.
  induction rest as [|c rest IH]; intros q r; simpl.
  - destruct (starts_with marker []) eqn:E; [|discriminate].
    intros [= <-]. rewrite Nat.sub_diag. simpl. repeat split; try lia; auto.
  - destruct (starts_with marker (c :: rest)) eqn:E.
    + intros [= <-]. rewrite Nat.sub_diag. simpl. repeat split; try lia; auto.
    + intros Hr. apply IH in Hr. destruct Hr as (Hb & Hat & Hno).
      replace (r - q) with (S (r - S q)) by lia. simpl.
      repeat split; try lia; auto.
      intros [|i] Hi; simpl; [exact E|]. apply Hno. lia.
Qed.

Lemma find_in_None marker : forall rest q,
  find_in marker rest q = None ->
  forall i, i <= length rest -> starts_with marker (skipn i rest) = false.
Proof.
  induction rest as [|c rest IH]; intros q; simpl.
  - destruct (starts_with marker []) eqn:E; [discriminate|].
    intros _ i Hi. replace i with 0 by lia. exact E.
  - destruct (starts_with marker (c :: rest)) eqn:E; [discriminate|].
    intros Hn [|i] Hi; simpl; [exact E|]. apply (IH _ Hn). lia.
Qed.

Lemma find_Some text marker pos p :
  find text marker pos = Some p ->
  pos <= p <= length text
  /\ occurs_at text marker p = true
  /\ forall q, pos <= q < p -> occurs_at text marker q = false.
Proof.
  unfold find, occurs_at.
  destruct (Nat.ltb_spec (length text) pos) as [|Hle]; [discriminate|].
  intros H. apply find_in_Some in H. rewrite length_skipn in H.
  destruct H as (Hb & Hat & Hno).
  rewrite skipn_skipn in Hat. replace (p - pos + pos) with p in Hat by lia.
  repeat split; try lia; auto.
  intros q Hq. specialize (Hno (q - pos)). rewrite skipn_skipn in Hno.
  replace (q - pos + pos) with q in Hno by lia. apply Hno. lia.
Qed.

Lemma find_None text marker pos :
  find text marker pos = None ->
  forall q, pos <= q <= length text -> occurs_at text marker q = false.
Proof.
  unfold find, occurs_at.
  destruct (Nat.ltb_spec (length text) pos) as [|Hle]; [intros _ q Hq; lia|].
  intros H q Hq. pose proof (find_in_None _ _ _ H (q - pos)) as Hno.
  rewrite length_skipn, skipn_skipn in Hno.
  replace (q - pos + pos) with q in Hno by lia. apply Hno. lia.
Qed.

(** [starts_with] and [occurs_at] say what they are meant to say. *)
Lemma starts_with_iff marker : forall text,
  starts_with marker text = true <-> exists post, text = marker ++ post.
Proof.
  induction marker as [|m marker IH]; intros text; simpl.
  - split; [intros _; now exists text | reflexivity].
  - destruct text as [|c text].
    + split; [discriminate | intros (post & [=])].
    + rewrite andb_true_iff, Ascii.eqb_eq, IH. split.
      * intros (-> & post & ->). now exists post.
      * intros (post & [= -> ->]). split; [reflexivity | now exists post].
Qed.

Lemma occurs_at_iff text marker p :
  p <= length text /\ occurs_at text marker p = true
  <-> exists pre post, text = pre ++ marker ++ post /\ length pre = p.
Proof.
  unfold occurs_at. rewrite starts_with_iff. split.
  - intros (Hp & post & Hs). exists (firstn p text), post.
    rewrite <- Hs, firstn_skipn, length_firstn. split; [reflexivity | lia].
  - intros (pre & post & -> & <-). rewrite length_app. split; [lia|].
    exists post. rewrite skipn_app, skipn_all, Nat.sub_diag. reflexivity.
Qed.

Lemma filter_none {A} (f : A -> bool) l :
  (forall x, In x l -> f x = false) -> filter f l = [].
Proof.
  induction l as [|a l IH]; simpl; intros H; [reflexivity|].
  rewrite (H a) by auto. apply IH. auto.
Qed.

Lemma count_loop_spec text marker count pos :
  pos <= S (length text) ->
  count_loop text marker count pos
  = (count + Z.of_nat (length (filter (occurs_at text marker)
                                 (seq pos (S (length text) - pos)))))%Z.
Proof.
  funelim (count_loop text marker count pos); intros Hpos.
  - clear Heqcall. pose proof (find_Some _ _ _ _ Hfind) as (Hb & Hat & Hno).
    rewrite H by lia.
    replace (S (length text) - pos) with ((p - pos) + S (length text - p)) by lia.
    rewrite seq_app, filter_app.
    rewrite (filter_none _ (seq pos (p - pos))).
    2:{ intros q Hq. apply in_seq in Hq. apply Hno. lia. }
    replace (pos + (p - pos)) with p by lia. simpl. rewrite Hat. simpl.
    replace (length text - p) with (S (length text) - S p) by lia. lia.
  - rewrite filter_none; [simpl; lia|].
    intros q Hq. apply in_seq in Hq. apply (find_None _ _ _ e). lia.
Qed.

End CountFacts.


(** ** Further properties of [escape] *)

Section EscapeMore.
Import JsonWriter Spec Shapes.

Lemma escape_image_special c :
  special c = true -> exists x, escape_image c = [backslash; x]
                             /\ x <> LF /\ x <> CR /\ x <> TAB.
Proof.
  unfold special, escape_image.
  destruct (c =? dquote)%char; [intros _; eexists; repeat split; discriminate|].
  destruct (c =? backslash)%char; [intros _; eexists; repeat split; discriminate|].
  destruct (c =? LF)%char; [intros _; eexists; repeat split; discriminate|].
  destruct (c =? CR)%char; [intros _; eexists; repeat split; discriminate|].
  destruct (c =? TAB)%char; [intros _; eexists; repeat split; discriminate|].
  discriminate.
Qed.

Lemma escape_image_plain c : special c = false -> escape_image c = [c].
Proof.
  unfold special, escape_image.
  destruct (c =? dquote)%char; [discriminate|].
  destruct (c =? backslash)%char; [discriminate|].
  destruct (c =? LF)%char; [discriminate|].
  destruct (c =? CR)%char; [discriminate|].
  destruct (c =? TAB)%char; [discriminate|reflexivity].
Qed.

Lemma special_false c :
  special c = false ->
  c <> dquote /\ c <> backslash /\ c <> LF /\ c <> CR /\ c <> TAB.
Proof.
  unfold special. intros H.
  repeat (apply orb_false_elim in H; destruct H as [H ?]).
  repeat split; apply Ascii.eqb_neq; assumption.
Qed.

End EscapeMore.

Lemma escape_length_formula (s : cstring) :
  length (JsonWriter.escape s)
  = length s + length (filter Shapes.special s).
Proof.
  rewrite escape_flat_map.
  induction s as [|c s IH]; [reflexivity|].
  cbn [flat_map filter]. rewrite length_app, IH.
  destruct (Shapes.special c) eqn:E.
  - destruct (escape_image_special c E) as (x & -> & _). simpl. lia.
  - rewrite (escape_image_plain c E). simpl. lia.
Qed.

(** X1. The escaped text is longer than the input by exactly the number
    of quotes, backslashes, newlines, carriage returns and tabs in it, hence
    between one and two times as long. *)
Theorem escape_length_bounds (s : cstring) :
  length (JsonWriter.escape s) = length s + length (filter Shapes.special s)
  /\ length s <= length (JsonWriter.escape s) <= 2 * length s.
Proof.
  rewrite escape_length_formula.
  pose proof (filter_length_le Shapes.special s). lia.
Qed.

(** X2. No newline, carriage return or tab survives in the escaped text:
    it stays on one line. *)
Theorem escape_no_control (s : cstring) :
  ~ In LF (JsonWriter.escape s) /\ ~ In CR (JsonWriter.escape s)
  /\ ~ In TAB (JsonWriter.escape s).
Proof.
  rewrite escape_flat_map.
  induction s as [|c s (IH1 & IH2 & IH3)]; [simpl; tauto|].
  cbn [flat_map]. rewrite !in_app_iff.
  destruct (Shapes.special c) eqn:E.
  - destruct (escape_image_special c E) as (x & -> & Hn & Hr & Ht).
    simpl. repeat split; intros [[H|[H|[]]]|H]; try discriminate H; auto.
  - rewrite (escape_image_plain c E).
    destruct (special_false c E) as (_ & _ & Hn & Hr & Ht).
    simpl. repeat split; intros [[H|[]]|H]; auto.
Qed.

(** X3. [escape] returns its input unchanged exactly when the input holds
    none of the five characters it rewrites. *)
Theorem escape_fixpoint_iff (s : cstring) :
  JsonWriter.escape s = s <-> forallb (fun c => negb (Shapes.special c)) s = true.
Proof.
  split.
  - intros H. assert (L : length (JsonWriter.escape s) = length s) by now rewrite H.
    rewrite escape_length_formula in L.
    assert (F : filter Shapes.special s = []) by (apply length_zero_iff_nil; lia).
    clear -F. induction s as [|c s IH]; [reflexivity|].
    simpl in *. destruct (Shapes.special c); [discriminate|]. simpl. auto.
  - intros H. rewrite escape_flat_map.
    induction s as [|c s IH]; [reflexivity|].
    simpl in H. apply andb_prop in H. destruct H as [Hc Hs].
    apply negb_true_iff in Hc.
    cbn [flat_map]. rewrite (escape_image_plain c Hc), IH by assumption. reflexivity.
Qed.

(** ** Further properties of [prettyPrint] *)

Section ScanMore.
Import JsonWriter Shapes.
Local Open Scope Z_scope.

Lemma step_copy st c :
  layout c = false ->
  exists i, step st c = Returned (mkScan (result st ++ [c]) (indent st) i c).
Proof.
  unfold layout, step. intros H.
  repeat (apply orb_false_elim in H; destruct H as [H ?]).
  repeat match goal with E : (_ =? _)%char = false |- _ => rewrite E; clear E end.
  cbn [orb negb andb].
  match goal with |- context [negb ?b] => destruct b end; cbn [negb]; eexists; reflexivity.
Qed.

Lemma run_copy json : forall st,
  forallb (fun c => negb (layout c)) json = true ->
  exists st', run json st = Returned st' /\ result st' = result st ++ json
              /\ indent st' = indent st.
Proof.
  induction json as [|c json IH]; intros st H.
  - exists st. rewrite app_nil_r. auto.
  - simpl in H. apply andb_prop in H. destruct H as [Hc Hj].
    apply negb_true_iff in Hc.
    destruct (step_copy st c Hc) as (i & Hs). cbn [run]. rewrite Hs. cbn [bind].
    destruct (IH (mkScan (result st ++ [c]) (indent st) i c) Hj) as (st' & Hr & Hres & Hi).
    exists st'. cbn [result indent] in *. rewrite <- app_assoc in Hres. auto.
Qed.

(** Inside a string every character other than a quote is copied. *)
Lemma run_in_string s : forall st,
  inString st = true ->
  ~ In dquote s ->
  exists st', run s st = Returned st' /\ result st' = result st ++ s
              /\ indent st' = indent st /\ inString st' = true.
Proof.
  induction s as [|c s IH]; intros st Hi Hq.
  - exists st. rewrite app_nil_r. auto.
  - cbn [run]. unfold step.
    assert (Hc : (c =? dquote)%char = false).
    { apply Ascii.eqb_neq. intros ->. apply Hq. now left. }
    rewrite Hc, Hi. cbn [andb negb bind].
    destruct (IH (mkScan (result st ++ [c]) (indent st) true c) eq_refl)
      as (st' & Hr & Hres & Hind & His).
    { intros H. apply Hq. now right. }
    exists st'. cbn [result indent prevChar] in *. rewrite <- app_assoc in Hres.
    repeat split; auto.
Qed.

End ScanMore.

(** X4. A text without brace, bracket, comma, colon or blank (a number,
    a literal name, a simple string) is returned as it is. *)
Theorem prettyPrint_plain_text (json : cstring) :
  forallb (fun c => negb (Shapes.layout c)) json = true ->
  JsonWriter.prettyPrint json = Returned json.
Proof.
  intros H. destruct (run_copy json JsonWriter.scan_init H) as (st & Hr & Hres & _).
  unfold JsonWriter.prettyPrint. rewrite Hr. cbn [bind]. now rewrite Hres.
Qed.

Lemma prettyPrint_plain_text_witness :
  forallb (fun c => negb (Shapes.layout c)) (lit "-12.5e+3") = true
  /\ JsonWriter.prettyPrint (lit "-12.5e+3") = Returned (lit "-12.5e+3").
Proof.
  split; [reflexivity|].
  apply (prettyPrint_plain_text (lit "-12.5e+3")). reflexivity.
Defined.

(** X5. A quoted text without inner quote is returned as it is, whatever
    braces, brackets, commas, colons and blanks it holds. *)
Theorem prettyPrint_string_literal (s : cstring) :
  ~ In dquote s ->
  JsonWriter.prettyPrint (dquote :: s ++ [dquote]) = Returned (dquote :: s ++ [dquote]).
Proof.
  intros Hq. unfold JsonWriter.prettyPrint. cbn [JsonWriter.run].
  change (JsonWriter.step JsonWriter.scan_init dquote)
    with (Returned (JsonWriter.mkScan [dquote] 0 true dquote)).
  cbn [bind]. rewrite run_app.
  destruct (run_in_string s (JsonWriter.mkScan [dquote] 0 true dquote) eq_refl Hq)
    as (st & Hr & Hres & Hind & His).
  rewrite Hr. cbn [bind JsonWriter.run]. unfold JsonWriter.step.
  rewrite His. cbn [Ascii.eqb Bool.eqb dquote andb].
  destruct (negb (JsonWriter.prevChar st =? backslash)%char); cbn [negb bind];
    rewrite Hres; reflexivity.
Qed.

Lemma prettyPrint_string_literal_witness :
  ~ In dquote (lit "a, b: {c} [d]")
  /\ JsonWriter.prettyPrint (dquote :: lit "a, b: {c} [d]" ++ [dquote])
     = Returned (dquote :: lit "a, b: {c} [d]" ++ [dquote]).
Proof.
  assert (H : ~ In dquote (lit "a, b: {c} [d]")).
  { cbn. intuition discriminate. }
  split; [exact H|]. apply (prettyPrint_string_literal (lit "a, b: {c} [d]") H).
Defined.




Section Reformat.
Import JsonWriter Shapes.
Local Open Scope Z_scope.

Lemma run_cons c rest st :
  run (c :: rest) st = (st' <- step st c ;; run rest st').
Proof. reflexivity. Qed.

Lemma step_drop st c :
  c = " "%char \/ c = LF ->
  inString st = false ->
  step st c = Returned (mkScan (result st) (indent st) false c).
Proof.
  intros [->| ->] Hi; unfold step; rewrite Hi; reflexivity.
Qed.

Lemma run_pad n : forall st,
  inString st = false ->
  exists p, run (repeat " "%char n) st
            = Returned (mkScan (result st) (indent st) false p)
            /\ (prevChar st <> backslash -> p <> backslash).
Proof.
  induction n as [|n IH]; intros st Hi.
  - exists (prevChar st). destruct st; simpl in *; subst. auto.
  - cbn [repeat run]. rewrite step_drop by auto. cbn [bind].
    destruct (IH (mkScan (result st) (indent st) false " "%char) eq_refl) as (p & Hr & Hp).
    exists p. split; [exact Hr|]. intros _. apply Hp. discriminate.
Qed.

(** Reading back what one step wrote: newline and padding are dropped and
    written again. *)
Lemma run_layout_tail n r k c :
  exists p, run (LF :: repeat " "%char n) (mkScan r k false c)
            = Returned (mkScan r k false p) /\ p <> backslash.
Proof.
  cbn [run]. rewrite step_drop by auto. cbn [bind result indent].
  destruct (run_pad n (mkScan r k false LF) eq_refl) as (p & Hr & Hp).
  exists p. split; [exact Hr|]. apply Hp. discriminate.
Qed.

Lemma step_reformat st c st' st2 :
  c <> backslash ->
  sim st st2 ->
  step st c = Returned st' ->
  exists K st2',
    result st' = result st ++ K
    /\ run K st2 = Returned st2'
    /\ result st2' = result st2 ++ K
    /\ sim st' st2'.
Proof.
  intros Hc (Hi & Hk & Hp & Hp2) H.
  destruct st as [r k i p], st2 as [r2 k2 i2 p2]. cbn [result indent inString prevChar] in *.
  subst i2 k2. unfold step in H. cbn [result indent inString prevChar] in H.
  apply Ascii.eqb_neq in Hp, Hp2.
  rewrite Hp in H. cbn [negb] in H. rewrite andb_true_r in H.
  remember (if (c =? dquote)%char then negb i else i) as i' eqn:Ei.
  assert (Hstep2 : forall r0 p0, (p0 =? backslash)%char = false ->
            step (mkScan r0 k i p0) c
            = (if negb i' then
                 if (c =? "{")%char || (c =? "[")%char then
                   pad <- fill ((k + 1) * 2) " " ;;
                   Returned (mkScan (r0 ++ [c] ++ [LF] ++ pad) (k + 1) i' c)
                 else if (c =? "}")%char || (c =? "]")%char then
                   pad <- fill ((k - 1) * 2) " " ;;
                   Returned (mkScan (r0 ++ [LF] ++ pad ++ [c]) (k - 1) i' c)
                 else if (c =? ",")%char then
                   pad <- fill (k * 2) " " ;;
                   Returned (mkScan (r0 ++ [c] ++ [LF] ++ pad) k i' c)
                 else if (c =? ":")%char then
                   Returned (mkScan (r0 ++ [c] ++ [" "%char]) k i' c)
                 else if negb (c =? " ")%char && negb (c =? LF)%char
                         && negb (c =? CR)%char && negb (c =? TAB)%char then
                   Returned (mkScan (r0 ++ [c]) k i' c)
                 else Returned (mkScan r0 k i' c)
               else Returned (mkScan (r0 ++ [c]) k i' c))).
  { intros r0 p0 Hp0. unfold step. cbn [result indent inString prevChar].
    rewrite Hp0. cbn [negb]. rewrite andb_true_r, <- Ei. reflexivity. }
  assert (Hcb : c <> backslash) by exact Hc.
  destruct i'; cbn [negb] in H.
  { (* inside a string *)
    injection H as <-. exists [c], (mkScan (r2 ++ [c]) k true c).
    cbn [result]. split; [reflexivity|]. split; [|repeat split; auto].
    rewrite run_cons, (Hstep2 r2 p2 Hp2). reflexivity. }
  destruct ((c =? "{")%char || (c =? "[")%char) eqn:Eo.
  { unfold fill in H. destruct (Z.ltb_spec ((k + 1) * 2) 0) as [|Hn]; [discriminate|].
    cbn [bind] in H. injection H as <-.
    set (n := Z.to_nat ((k + 1) * 2)).
    destruct (run_layout_tail n (r2 ++ [c] ++ [LF] ++ repeat " "%char n) (k + 1) c)
      as (q & Hr & Hq).
    exists ([c] ++ [LF] ++ repeat " "%char n),
           (mkScan (r2 ++ [c] ++ [LF] ++ repeat " "%char n) (k + 1) false q).
    cbn [result]. split; [reflexivity|]. split; [|repeat split; auto].
    cbn [app]. rewrite run_cons, (Hstep2 r2 p2 Hp2). cbn [negb].
    unfold fill. destruct (Z.ltb_spec ((k + 1) * 2) 0); [lia|]. cbn [bind].
    exact Hr. }
  destruct ((c =? "}")%char || (c =? "]")%char) eqn:Ec.
  { unfold fill in H. destruct (Z.ltb_spec ((k - 1) * 2) 0) as [|Hn]; [discriminate|].
    cbn [bind] in H. injection H as <-.
    set (n := Z.to_nat ((k - 1) * 2)).
    assert (i = false) as ->.
    { destruct (Ascii.eqb_spec c dquote) as [->|_]; [discriminate Ec | now symmetry]. }
    destruct (run_layout_tail n r2 k p2) as (q & Hr & Hq).
    exists ([LF] ++ repeat " "%char n ++ [c]),
           (mkScan (r2 ++ [LF] ++ repeat " "%char n ++ [c]) (k - 1) false c).
    cbn [result]. split; [reflexivity|]. split; [|repeat split; auto].
    change ([LF] ++ repeat " "%char n ++ [c]) with ((LF :: repeat " "%char n) ++ [c]).
    rewrite run_app, Hr. cbn [bind]. rewrite run_cons, (Hstep2 r2 q).
    2:{ now apply Ascii.eqb_neq. }
    cbn [negb]. unfold fill.
    destruct (Z.ltb_spec ((k - 1) * 2) 0); [lia|]. reflexivity. }
  destruct (c =? ",")%char eqn:Em.
  { unfold fill in H. destruct (Z.ltb_spec (k * 2) 0) as [|Hn]; [discriminate|].
    cbn [bind] in H. injection H as <-.
    set (n := Z.to_nat (k * 2)).
    destruct (run_layout_tail n (r2 ++ [c] ++ [LF] ++ repeat " "%char n) k c)
      as (q & Hr & Hq).
    exists ([c] ++ [LF] ++ repeat " "%char n),
           (mkScan (r2 ++ [c] ++ [LF] ++ repeat " "%char n) k false q).
    cbn [result]. split; [reflexivity|]. split; [|repeat split; auto].
    cbn [app]. rewrite run_cons, (Hstep2 r2 p2 Hp2). cbn [negb].
    unfold fill. destruct (Z.ltb_spec (k * 2) 0); [lia|]. cbn [bind].
    exact Hr. }
  destruct (c =? ":")%char eqn:El.
  { injection H as <-.
    exists ([c] ++ [" "%char]), (mkScan (r2 ++ [c] ++ [" "%char]) k false " "%char).
    cbn [result]. split; [reflexivity|]. split; [|repeat split; auto; discriminate].
    cbn [app]. rewrite run_cons, (Hstep2 r2 p2 Hp2). cbn [negb bind].
    rewrite run_cons, step_drop by auto. reflexivity. }
  destruct (negb (c =? " ")%char && negb (c =? LF)%char
            && negb (c =? CR)%char && negb (c =? TAB)%char) eqn:Ew.
  { injection H as <-.
    exists [c], (mkScan (r2 ++ [c]) k false c).
    cbn [result]. split; [reflexivity|]. split; [|repeat split; auto].
    rewrite run_cons, (Hstep2 r2 p2 Hp2). reflexivity. }
  injection H as <-.
  assert (i = false) as ->.
  { destruct (Ascii.eqb_spec c dquote) as [->|_]; [discriminate Ew | now symmetry]. }
  exists [], (mkScan r2 k false p2).
  cbn [result run]. rewrite !app_nil_r. repeat split; auto.
  now apply Ascii.eqb_neq.
Qed.

Lemma run_reformat json : forall st st' st2,
  Forall (fun c => c <> backslash) json ->
  sim st st2 ->
  run json st = Returned st' ->
  exists K st2',
    result st' = result st ++ K
    /\ run K st2 = Returned st2'
    /\ result st2' = result st2 ++ K
    /\ sim st' st2'.
Proof.
  induction json as [|c json IH]; intros st st' st2 Hj Hs H.
  - injection H as <-. exists [], st2. rewrite !app_nil_r. auto.
  - inversion Hj as [|? ? Hc Hj']; subst. cbn [run] in H.
    destruct (step st c) as [st1|] eqn:E; [|discriminate]. cbn [bind] in H.
    destruct (step_reformat st c st1 st2 Hc Hs E) as (K1 & st21 & R1 & Q1 & S1 & Hs1).
    destruct (IH st1 st' st21 Hj' Hs1 H) as (K2 & st22 & R2 & Q2 & S2 & Hs2).
    exists (K1 ++ K2), st22. rewrite run_app, Q1. cbn [bind].
    rewrite R2, R1, S2, S1, <- !app_assoc. auto.
Qed.

End Reformat.

(** X6. On a text without backslash, reformatting the result of
    [prettyPrint] gives that result again. *)
Theorem prettyPrint_idempotent_without_backslash (json out : cstring) :
  Forall (fun c => c <> backslash) json ->
  JsonWriter.prettyPrint json = Returned out ->
  JsonWriter.prettyPrint out = Returned out.
Proof.
  intros Hj. unfold JsonWriter.prettyPrint.
  destruct (JsonWriter.run json JsonWriter.scan_init) as [st|] eqn:E; [|discriminate].
  intros [= <-].
  destruct (run_reformat json JsonWriter.scan_init st JsonWriter.scan_init Hj) as
    (K & st2 & R & Q & S & _); [|exact E|].
  { repeat split; discriminate. }
  cbn [JsonWriter.result JsonWriter.scan_init app] in R, S.
  rewrite R, Q. cbn [bind]. now rewrite S.
Qed.

Lemma prettyPrint_idempotent_without_backslash_witness :
  Forall (fun c => c <> backslash) (jtext "{'a':[1,2]}")
  /\ JsonWriter.prettyPrint (jtext "{'a':[1,2]}")
     = Returned (jlines ["{"; "  'a': ["; "    1,"; "    2"; "  ]"; "}"]%string)
  /\ JsonWriter.prettyPrint (jlines ["{"; "  'a': ["; "    1,"; "    2"; "  ]"; "}"]%string)
     = Returned (jlines ["{"; "  'a': ["; "    1,"; "    2"; "  ]"; "}"]%string).
Proof.
  assert (H : Forall (fun c => c <> backslash) (jtext "{'a':[1,2]}")).
  { repeat (constructor; [discriminate|]). constructor. }
  split; [exact H|]. split; [reflexivity|].
  apply (prettyPrint_idempotent_without_backslash (jtext "{'a':[1,2]}") _ H).
  reflexivity.
Defined.

(** X7. On a text without backslash whose braces and brackets outside
    string literals are balanced, [indent] is 0 when the loop is left. *)
Theorem final_indent_zero_without_backslash (json : cstring) :
  Forall (fun c => c <> backslash) json ->
  Json.balanced json = true ->
  JsonWriter.final_indent json = Returned 0%Z.
Proof. apply indent_zero_without_backslash. Qed.

Lemma final_indent_zero_without_backslash_witness :
  Forall (fun c => c <> backslash) (jtext "{'a':[1,'}']}")
  /\ Json.balanced (jtext "{'a':[1,'}']}") = true
  /\ JsonWriter.final_indent (jtext "{'a':[1,'}']}") = Returned 0%Z.
Proof.
  assert (H : Forall (fun c => c <> backslash) (jtext "{'a':[1,'}']}")).
  { repeat (constructor; [discriminate|]). constructor. }
  split; [exact H|]. split; [reflexivity|].
  apply (final_indent_zero_without_backslash (jtext "{'a':[1,'}']}") H). reflexivity.
Defined.


(** ** Further properties of the marker count, and [parseEnvPath] *)

Section CountMore.
Import JsonWriter Spec.

Lemma filter_nil_iff {A} (f : A -> bool) l :
  filter f l = [] <-> forall x, In x l -> f x = false.
Proof.
  split; [|apply filter_none].
  induction l as [|a l IH]; simpl; [tauto|].
  destruct (f a) eqn:E; [discriminate|].
  intros H x [<-|Hx]; auto.
Qed.

End CountMore.

(** X8. The count is 0 exactly when the marker occurs nowhere in the
    text. *)
Theorem countOccurrences_zero_iff (text marker : cstring) :
  JsonWriter.countOccurrences text marker = 0%Z
  <-> ~ exists pre post, text = pre ++ marker ++ post.
Proof.
  unfold JsonWriter.countOccurrences. rewrite count_loop_spec by lia.
  rewrite Nat.sub_0_r, Z.add_0_l.
  rewrite <- Nat2Z.inj_0, Nat2Z.inj_iff, length_zero_iff_nil, filter_nil_iff.
  split.
  - intros H (pre & post & Ht).
    assert (Ho : length pre <= length text /\ Spec.occurs_at text marker (length pre) = true).
    { apply occurs_at_iff. now exists pre, post. }
    destruct Ho as [Hl Ho]. rewrite H in Ho; [discriminate|].
    apply in_seq. lia.
  - intros H p Hp. apply in_seq in Hp.
    destruct (Spec.occurs_at text marker p) eqn:E; [|reflexivity].
    exfalso. apply H.
    destruct (proj1 (occurs_at_iff text marker p)) as (pre & post & Ht & _);
      [split; [lia|exact E]|].
    now exists pre, post.
Qed.

Section EnvPathFacts.
Import JsonWriter WorkOrders.

Lemma find_at_start text marker :
  find text marker 0 = Some 0 <-> starts_with marker text = true.
Proof.
  unfold find. cbn [length Nat.ltb Nat.leb skipn].
  destruct text as [|c text]; cbn [find_in].
  - destruct (starts_with marker []); split; congruence.
  - destruct (starts_with marker (c :: text)); [split; congruence|].
    split; [|discriminate]. intros H. apply find_in_Some in H. lia.
Qed.

Lemma parseEnvPath_step_spec envPath arg :
  parseEnvPath_step envPath arg
  = if starts_with env_path_flag arg then skipn 11 arg else envPath.
Proof.
  unfold parseEnvPath_step.
  destruct (starts_with env_path_flag arg) eqn:E.
  - apply find_at_start in E. now rewrite E.
  - destruct (find arg env_path_flag 0) as [[|n]|] eqn:F; try reflexivity.
    apply find_at_start in F. congruence.
Qed.

Lemma fold_step_no_flag args : forall envPath,
  (forall arg, In arg args -> starts_with env_path_flag arg = false) ->
  fold_left parseEnvPath_step args envPath = envPath.
Proof.
  induction args as [|a args IH]; intros envPath H; [reflexivity|].
  cbn [fold_left]. rewrite parseEnvPath_step_spec, (H a) by now left.
  apply IH. intros arg Ha. apply H. now right.
Qed.

End EnvPathFacts.

(** X9. When no argument after the program name begins with
    [--env-path=], the path is [../.env]; the program name itself is not
    looked at. *)
Theorem parseEnvPath_default (argv : list cstring) :
  (forall arg, In arg (tl argv) ->
               JsonWriter.starts_with WorkOrders.env_path_flag arg = false) ->
  WorkOrders.parseEnvPath argv = lit "../.env".
Proof. intros H. unfold WorkOrders.parseEnvPath. now apply fold_step_no_flag. Qed.

Lemma parseEnvPath_default_witness :
  (forall arg, In arg (tl [lit "--env-path=a"; lit "-env-path=b"; lit "--env-path"]) ->
               JsonWriter.starts_with WorkOrders.env_path_flag arg = false)
  /\ WorkOrders.parseEnvPath [lit "--env-path=a"; lit "-env-path=b"; lit "--env-path"]
     = lit "../.env".
Proof.
  assert (H : forall arg,
             In arg (tl [lit "--env-path=a"; lit "-env-path=b"; lit "--env-path"]) ->
             JsonWriter.starts_with WorkOrders.env_path_flag arg = false).
  { intros arg [<-|[<-|[]]]; reflexivity. }
  split; [exact H|].
  apply (parseEnvPath_default [lit "--env-path=a"; lit "-env-path=b"; lit "--env-path"] H).
Defined.

(** X10. The path is what follows [--env-path=] in the last argument that
    begins with it. *)
Theorem parseEnvPath_last_flag (argv0 : cstring) (before after : list cstring)
        (path : cstring) :
  (forall arg, In arg after ->
               JsonWriter.starts_with WorkOrders.env_path_flag arg = false) ->
  WorkOrders.parseEnvPath
    (argv0 :: before ++ (WorkOrders.env_path_flag ++ path) :: after)
  = path.
Proof.
  intros H. unfold WorkOrders.parseEnvPath. cbn [tl].
  rewrite fold_left_app. cbn [fold_left].
  rewrite parseEnvPath_step_spec.
  replace (JsonWriter.starts_with WorkOrders.env_path_flag
             (WorkOrders.env_path_flag ++ path)) with true.
  2:{ symmetry. apply starts_with_iff. now exists path. }
  rewrite fold_step_no_flag by assumption. reflexivity.
Qed.

Lemma parseEnvPath_last_flag_witness :
  (forall arg, In arg [lit "-v"] ->
               JsonWriter.starts_with WorkOrders.env_path_flag arg = false)
  /\ WorkOrders.parseEnvPath
       (lit "prog" :: [lit "--env-path=a"] ++ (WorkOrders.env_path_flag ++ lit "/etc/b") :: [lit "-v"])
     = lit "/etc/b".
Proof.
  assert (H : forall arg, In arg [lit "-v"] ->
               JsonWriter.starts_with WorkOrders.env_path_flag arg = false).
  { intros arg [<-|[]]; reflexivity. }
  split; [exact H|].
  apply (parseEnvPath_last_flag (lit "prog") [lit "--env-path=a"] [lit "-v"] (lit "/etc/b") H).
Defined.

(** ** [std::string] facts *)

Section StdStringFacts.
Import StdString Shapes.

Lemma first_not_of_app set B : forall r p,
  all_in set B = true ->
  first_not_of (B ++ r) set p = first_not_of r set (p + length B).
Proof.
  induction B as [|b B IH]; intros r p H; simpl in *.
  - now rewrite Nat.add_0_r.
  - apply andb_prop in H. destruct H as [Hb HB].
    rewrite Hb, IH by assumption. f_equal. lia.
Qed.

Lemma find_first_not_of_app set B x r :
  all_in set B = true -> mem x set = false ->
  find_first_not_of (B ++ x :: r) set = Some (length B).
Proof.
  intros HB Hx. unfold find_first_not_of.
  rewrite first_not_of_app by assumption. simpl. now rewrite Hx.
Qed.

Lemma find_first_not_of_all set B :
  all_in set B = true -> find_first_not_of B set = None.
Proof.
  intros HB. unfold find_first_not_of.
  rewrite <- (app_nil_r B), first_not_of_app by assumption. reflexivity.
Qed.

Lemma last_not_of_app set l1 : forall l2 p best,
  last_not_of (l1 ++ l2) set p best
  = last_not_of l2 set (p + length l1) (last_not_of l1 set p best).
Proof.
  induction l1 as [|a l1 IH]; intros l2 p best; simpl.
  - now rewrite Nat.add_0_r.
  - rewrite IH. f_equal. lia.
Qed.

Lemma last_not_of_all set B : forall p best,
  all_in set B = true -> last_not_of B set p best = best.
Proof.
  induction B as [|b B IH]; intros p best H; simpl in *; [reflexivity|].
  apply andb_prop in H. destruct H as [Hb HB]. rewrite Hb. now apply IH.
Qed.

Lemma find_last_not_of_app set l x B :
  mem x set = false -> all_in set B = true ->
  find_last_not_of (l ++ x :: B) set = Some (length l).
Proof.
  intros Hx HB. unfold find_last_not_of.
  rewrite last_not_of_app. simpl. rewrite Hx. now apply last_not_of_all.
Qed.

Lemma find_last_not_of_all set B :
  all_in set B = true -> find_last_not_of B set = None.
Proof. intros HB. now apply last_not_of_all. Qed.

Lemma first_char_app ch k : forall r p,
  mem ch k = false ->
  first_char (k ++ ch :: r) ch p = Some (p + length k).
Proof.
  induction k as [|a k IH]; intros r p H; simpl in *.
  - rewrite Ascii.eqb_refl. f_equal. lia.
  - apply orb_false_elim in H. destruct H as [Ha Hk].
    rewrite Ha, IH by assumption. f_equal. lia.
Qed.

Lemma first_char_none ch k : forall p,
  mem ch k = false -> first_char k ch p = None.
Proof.
  induction k as [|a k IH]; intros p H; simpl in *; [reflexivity|].
  apply orb_false_elim in H. destruct H as [Ha Hk]. rewrite Ha. now apply IH.
Qed.

Lemma substr_from s r :
  substr (s ++ r) (length s) None = Ok r.
Proof.
  unfold substr. rewrite length_app.
  destruct (Nat.ltb_spec (length s + length r) (length s)); [lia|].
  now rewrite skipn_app, skipn_all, Nat.sub_diag.
Qed.

Lemma substr_prefix s r :
  substr (s ++ r) 0 (Some (length s)) = Ok s.
Proof.
  unfold substr. cbn [Nat.ltb Nat.leb skipn].
  now rewrite firstn_app, firstn_all, Nat.sub_diag, app_nil_r.
Qed.

Lemma erase_prefix s r :
  erase (s ++ r) 0 (Some (length s)) = Ok r.
Proof.
  unfold erase. cbn [Nat.ltb Nat.leb firstn app Nat.add].
  now rewrite skipn_app, skipn_all, Nat.sub_diag.
Qed.

Lemma erase_suffix s r :
  erase (s ++ r) (length s) None = Ok s.
Proof.
  unfold erase. rewrite length_app.
  destruct (Nat.ltb_spec (length s + length r) (length s)); [lia|].
  now rewrite firstn_app, firstn_all, Nat.sub_diag, !app_nil_r.
Qed.

Lemma mem_blanks2_4 c :
  mem c WorkOrders.blanks4 = false -> mem c WorkOrders.blanks2 = false.
Proof.
  unfold mem, WorkOrders.blanks4, WorkOrders.blanks2. simpl.
  intros H. repeat (apply orb_false_elim in H; destruct H as [? H]).
  repeat (apply orb_false_intro; auto).
Qed.

Lemma all_in_blanks2_4 s :
  all_in WorkOrders.blanks2 s = true -> all_in WorkOrders.blanks4 s = true.
Proof.
  unfold all_in. rewrite !forallb_forall. intros H c Hc.
  specialize (H c Hc). destruct (mem c WorkOrders.blanks4) eqn:E; [reflexivity|].
  apply mem_blanks2_4 in E. congruence.
Qed.

Lemma all_in_not_mem set s c :
  all_in set s = true -> mem c set = false -> mem c s = false.
Proof.
  unfold all_in, mem. intros Hs Hc.
  induction s as [|a s IH]; [reflexivity|].
  simpl in *. apply andb_prop in Hs. destruct Hs as [Ha Hs].
  rewrite IH by assumption. rewrite orb_false_r.
  destruct (Ascii.eqb_spec a c) as [->|]; [|reflexivity].
  unfold mem in *. congruence.
Qed.

Lemma mem_app c a b : mem c (a ++ b) = mem c a || mem c b.
Proof. unfold mem. apply existsb_app. Qed.

End StdStringFacts.

(** ** [loadEnvFile] *)

Section EnvLineFacts.
Import StdString WorkOrders Shapes.

Lemma substr_unquote y v0 :
  substr (y :: v0) 1 (length_minus_2 (y :: v0)) = Ok (removelast v0).
Proof.
  unfold substr, length_minus_2. cbn [length skipn].
  destruct (Nat.ltb_spec (S (length v0)) 1); [lia|].
  destruct (Nat.leb_spec 2 (S (length v0))).
  - rewrite removelast_firstn_len. do 2 f_equal. lia.
  - destruct v0; [reflexivity | simpl in *; lia].
Qed.

Lemma unquote_cons y v0 : unquote (y :: v0) = Ok (strip_quotes (y :: v0)).
Proof.
  unfold unquote. cbn [front back rbind strip_quotes].
  destruct (Ascii.eqb_spec y dquote) as [->|Hq].
  - cbn [rbind orb andb].
    destruct (last v0 dquote =? dquote)%char; cbn [rbind];
      [apply substr_unquote | reflexivity].
  - cbn [rbind orb].
    destruct (Ascii.eqb_spec y "'") as [->|Hs]; cbn [rbind andb]; [|reflexivity].
    destruct (last v0 "'" =? "'")%char; cbn [rbind];
      [apply substr_unquote | reflexivity].
Qed.

Lemma last_cons_default {A} (r : list A) : forall x d,
  last (x :: r) d = last r x.
Proof.
  induction r as [|b r IH]; intros x d; [reflexivity|].
  change (last (x :: b :: r) d) with (last (b :: r) d). now rewrite !IH.
Qed.

Lemma last_app_cons {A} (l : list A) : forall a rest d,
  last (l ++ a :: rest) d = last rest a.
Proof.
  induction l as [|b l IH]; intros a rest d; cbn [app].
  - apply last_cons_default.
  - rewrite last_cons_default. apply IH.
Qed.

Lemma split_last {A} (l : list A) a rest :
  l ++ a :: rest = removelast (l ++ a :: rest) ++ [last rest a].
Proof.
  rewrite (app_removelast_last a) at 1 by (now destruct l).
  now rewrite last_app_cons.
Qed.

Lemma trim_blanks_inner pa s pb :
  all_in blanks2 pa = true -> all_in blanks2 pb = true ->
  value_text_ends s = true ->
  trim_blanks (pa ++ s ++ pb) = Ok s.
Proof.
  intros Ha Hb Hs. destruct s as [|y s0]; [discriminate|].
  unfold value_text_ends in Hs. apply andb_prop in Hs. destruct Hs as [Hy Hw].
  apply negb_true_iff in Hy, Hw. rewrite last_cons_default in Hw.
  unfold trim_blanks.
  replace (find_first_not_of (pa ++ (y :: s0) ++ pb) blanks2) with (Some (length pa))
    by (symmetry; now apply find_first_not_of_app).
  rewrite erase_prefix. cbn [rbind].
  assert (E : y :: s0 = removelast (y :: s0) ++ [last s0 y])
    by apply (split_last [] y s0).
  remember (removelast (y :: s0)) as R eqn:ER. clear ER. rewrite E.
  rewrite <- app_assoc. cbn [app].
  rewrite find_last_not_of_app by assumption. cbn [plus_one].
  replace (S (length R)) with (length (R ++ [last s0 y]))
    by (rewrite length_app; cbn [length]; lia).
  change (R ++ last s0 y :: pb) with (R ++ [last s0 y] ++ pb).
  rewrite app_assoc. apply erase_suffix.
Qed.

Lemma trim_blanks_nil : trim_blanks [] = Ok [].
Proof. reflexivity. Qed.

(** Up to the equals sign: the line is trimmed, tested for a comment and
    split, and the key is trimmed. *)
Lemma env_line_split p1 k p2 rest p4 :
  all_in blanks4 p1 = true -> all_in blanks2 p2 = true ->
  all_in blanks4 p4 = true ->
  key_text k = true ->
  mem (last rest "="%char) blanks4 = false ->
  env_line (p1 ++ k ++ p2 ++ "="%char :: rest ++ p4)
  = (value <~ trim_blanks rest ;;
     value <~ unquote value ;;
     Ok (Assign k value)).
Proof.
  intros H1 H2 H4 Hk Hr.
  destruct k as [|x k0] eqn:Ek; [discriminate|]. rewrite <- Ek in *.
  assert (Hk' := Hk). rewrite Ek in Hk'. unfold key_text in Hk'. rewrite <- Ek in Hk'.
  repeat (apply andb_prop in Hk'; destruct Hk' as [Hk' ?]).
  repeat match goal with H : negb _ = true |- _ => apply negb_true_iff in H end.
  destruct (Ascii.eqb_spec x "#") as [|Hx]; [discriminate|].
  unfold env_line.
  replace (find_first_not_of (p1 ++ k ++ p2 ++ "="%char :: rest ++ p4) blanks4)
    with (Some (length p1)).
  2:{ rewrite Ek. cbn [app]. now rewrite find_first_not_of_app. }
  rewrite substr_from. cbn [rbind].
  set (T := k ++ p2 ++ "="%char :: rest).
  assert (ET : T = removelast T ++ [last rest "="%char]).
  { unfold T. rewrite app_assoc. apply split_last. }
  replace (k ++ p2 ++ "="%char :: rest ++ p4) with (T ++ p4)
    by (unfold T; now rewrite <- !app_assoc).
  replace (find_last_not_of (T ++ p4) blanks4) with (Some (length (removelast T))).
  2:{ rewrite ET at 2. rewrite <- app_assoc. cbn [app]. symmetry.
      now apply find_last_not_of_app. }
  replace (length (removelast T) + 1) with (length T)
    by (rewrite ET at 1; rewrite length_app; reflexivity).
  rewrite substr_prefix. cbn [rbind].
  assert (Hhd : exists t, T = x :: t) by (unfold T; rewrite Ek; cbn [app]; eauto).
  destruct Hhd as (t & Ht). rewrite Ht.
  destruct (Ascii.eqb_spec x "#"); [contradiction|].
  rewrite <- Ht. unfold T.
  replace (k ++ p2 ++ "="%char :: rest) with ((k ++ p2) ++ "="%char :: rest)
    by now rewrite <- app_assoc.
  assert (Hmem : mem "="%char (k ++ p2) = false).
  { rewrite mem_app. apply orb_false_intro; [assumption|].
    now apply (all_in_not_mem blanks2). }
  unfold find_char. rewrite first_char_app by assumption. cbn [Nat.add].
  rewrite substr_prefix. cbn [rbind].
  replace ((k ++ p2) ++ "="%char :: rest) with (((k ++ p2) ++ ["="%char]) ++ rest)
    by (now rewrite <- app_assoc).
  replace (length (k ++ p2) + 1) with (length ((k ++ p2) ++ ["="%char]))
    by (rewrite (length_app (k ++ p2)); reflexivity).
  rewrite substr_from. cbn [rbind].
  rewrite (trim_blanks_inner [] k p2 : _ -> _ -> _ -> trim_blanks (k ++ p2) = _);
    [reflexivity|reflexivity|assumption|].
  rewrite Ek. unfold value_text_ends. rewrite <- Ek.
  apply andb_true_intro. split; apply negb_true_iff; [now apply mem_blanks2_4 | assumption].
Qed.

End EnvLineFacts.



Section EnvLineBounds.
Import StdString WorkOrders Shapes.

Lemma first_not_of_bound set s : forall p q,
  first_not_of s set p = Some q -> p <= q < p + length s.
Proof.
  induction s as [|c s IH]; intros p q; simpl; [discriminate|].
  destruct (mem c set); [|intros [= <-]; lia].
  intros H. apply IH in H. lia.
Qed.

Lemma last_not_of_bound set s : forall p best q,
  (forall b, best = Some b -> b < p) ->
  last_not_of s set p best = Some q -> q < p + length s.
Proof.
  induction s as [|c s IH]; intros p best q Hb; simpl.
  - intros H. apply Hb in H. lia.
  - intros H. apply IH in H; [lia|].
    intros b. destruct (mem c set); [intros E; apply Hb in E; lia | intros [= <-]; lia].
Qed.

Lemma find_last_not_of_bound set s q :
  find_last_not_of s set = Some q -> q < length s.
Proof.
  intros H. apply last_not_of_bound in H; [exact H | discriminate].
Qed.

Lemma last_not_of_some set s : forall p best b,
  best = Some b -> exists q, last_not_of s set p best = Some q.
Proof.
  induction s as [|c s IH]; intros p best b ->; simpl; [eauto|].
  destruct (mem c set); eapply IH; reflexivity.
Qed.

Lemma first_char_bound ch s : forall p q,
  first_char s ch p = Some q -> p <= q < p + length s.
Proof.
  induction s as [|c s IH]; intros p q; simpl; [discriminate|].
  destruct (c =? ch)%char; [intros [= <-]; lia|].
  intros H. apply IH in H. lia.
Qed.

Lemma substr_ok s pos count :
  pos <= length s ->
  substr s pos count
  = Ok (match count with Some n => firstn n (skipn pos s) | None => skipn pos s end).
Proof.
  intros H. unfold substr. destruct (Nat.ltb_spec (length s) pos); [lia|reflexivity].
Qed.

Lemma erase_ok s pos count :
  pos <= length s -> exists r, erase s pos count = Ok r.
Proof.
  intros H. unfold erase. destruct (Nat.ltb_spec (length s) pos); [lia|eauto].
Qed.

Lemma trim_blanks_ok s : exists r, trim_blanks s = Ok r.
Proof.
  unfold trim_blanks.
  destruct (erase_ok s 0 (find_first_not_of s blanks2)) as (s1 & ->); [lia|].
  cbn [rbind]. apply erase_ok.
  destruct (find_last_not_of s1 blanks2) as [e|] eqn:E; cbn [plus_one]; [|lia].
  apply find_last_not_of_bound in E. lia.
Qed.

Lemma unquote_cases v :
  (v = [] /\ unquote v = Undefined) \/ (v <> [] /\ unquote v = Ok (strip_quotes v)).
Proof.
  destruct v as [|y v0]; [left; split; reflexivity|].
  right. split; [discriminate | apply unquote_cons].
Qed.

Lemma mem_firstn c n s : mem c s = false -> mem c (firstn n s) = false.
Proof.
  revert n. induction s as [|a s IH]; intros [|n]; simpl; auto.
  intros H. apply orb_false_elim in H. destruct H as [Ha Hs].
  rewrite Ha. now apply IH.
Qed.

Lemma mem_skipn c n s : mem c s = false -> mem c (skipn n s) = false.
Proof.
  revert n. induction s as [|a s IH]; intros [|n]; simpl; auto.
  intros H. apply orb_false_elim in H. destruct H as [Ha Hs]. now apply IH.
Qed.

(** The shape of every run of the loop body: the trimmed line, and what is
    done with it. *)
Lemma env_line_cases line :
  env_line line = Ok Skip
  \/ exists key value,
       env_line line = (v <~ unquote value ;; Ok (Assign key v))
       /\ mem "="%char line = true.
Proof.
  unfold env_line.
  destruct (find_first_not_of line blanks4) as [start|] eqn:Es; [|now left].
  apply first_not_of_bound in Es.
  rewrite substr_ok by lia. cbn [rbind].
  set (l1 := skipn start line).
  match goal with |- rbind _ ?k = _ \/ _ => set (K := k) end.
  assert (HK : forall l2,
             (mem "="%char line = false -> mem "="%char l2 = false) ->
             K l2 = Ok Skip
             \/ exists key value,
                  K l2 = (v <~ unquote value ;; Ok (Assign key v))
                  /\ mem "="%char line = true).
  { intros l2 Hl2. unfold K. destruct l2 as [|c0 l2']; [left; reflexivity|].
    destruct (c0 =? "#")%char; [left; reflexivity|].
    destruct (find_char (c0 :: l2') "="%char) as [pos|] eqn:Ep; [|left; reflexivity].
    right. pose proof Ep as Hb. apply first_char_bound in Hb.
    rewrite !substr_ok by lia. cbn [rbind].
    destruct (trim_blanks_ok (firstn pos (skipn 0 (c0 :: l2')))) as (key & ->).
    destruct (trim_blanks_ok (skipn (pos + 1) (c0 :: l2'))) as (value & ->).
    cbn [rbind]. exists key, value. split; [reflexivity|].
    destruct (mem "="%char line) eqn:Em; [reflexivity|].
    specialize (Hl2 eq_refl). unfold find_char in Ep.
    now rewrite first_char_none in Ep. }
  clearbody K.
  destruct (find_last_not_of l1 blanks4) as [e|].
  - rewrite substr_ok by lia. cbn [rbind]. apply HK.
    intros H. apply mem_firstn, mem_skipn. unfold l1. now apply mem_skipn.
  - cbn [rbind]. apply HK. intros H. unfold l1. now apply mem_skipn.
Qed.

End EnvLineBounds.

(** X11. A line [key = value], with blanks allowed around the line, the
    key and the value, assigns the key its value with one pair of matching
    surrounding quotes removed; inner blanks and equals signs of the value
    are kept. *)
Theorem env_line_assign (p1 k p2 p3 v p4 : cstring) :
  Shapes.all_in WorkOrders.blanks4 p1 = true ->
  Shapes.all_in WorkOrders.blanks2 p2 = true ->
  Shapes.all_in WorkOrders.blanks2 p3 = true ->
  Shapes.all_in WorkOrders.blanks4 p4 = true ->
  Shapes.key_text k = true ->
  Shapes.value_text v = true ->
  WorkOrders.env_line (p1 ++ k ++ p2 ++ "="%char :: p3 ++ v ++ p4)
  = Ok (WorkOrders.Assign k (Shapes.strip_quotes v)).
Proof.
  intros H1 H2 H3 H4 Hk Hv.
  destruct v as [|y v0] eqn:Ev; [discriminate|]. rewrite <- Ev in *.
  assert (Hv' := Hv). rewrite Ev in Hv'. unfold Shapes.value_text in Hv'.
  apply andb_prop in Hv'. destruct Hv' as [Hy Hw]. apply negb_true_iff in Hy, Hw.
  rewrite last_cons_default in Hw.
  replace (p3 ++ v ++ p4) with ((p3 ++ v) ++ p4) by now rewrite app_assoc.
  rewrite env_line_split; try assumption.
  2:{ rewrite Ev, last_app_cons. exact Hw. }
  rewrite <- (app_nil_r (p3 ++ v)), <- app_assoc.
  rewrite trim_blanks_inner; try assumption; try reflexivity.
  2:{ rewrite Ev. unfold Shapes.value_text_ends.
      rewrite last_cons_default, Hy. cbn [negb andb]. apply negb_true_iff.
      now apply mem_blanks2_4. }
  cbn [rbind]. rewrite Ev, unquote_cons. reflexivity.
Qed.

Lemma env_line_assign_witness :
  Shapes.all_in WorkOrders.blanks4 [" "%char; TAB] = true
  /\ Shapes.all_in WorkOrders.blanks2 [" "%char] = true
  /\ Shapes.all_in WorkOrders.blanks2 [TAB] = true
  /\ Shapes.all_in WorkOrders.blanks4 [" "%char; CR] = true
  /\ Shapes.key_text (lit "API_KEY") = true
  /\ Shapes.value_text (jtext "'s3 cr=t'") = true
  /\ WorkOrders.env_line
       ([" "%char; TAB] ++ lit "API_KEY" ++ [" "%char] ++ "="%char :: [TAB]
          ++ jtext "'s3 cr=t'" ++ [" "%char; CR])
     = Ok (WorkOrders.Assign (lit "API_KEY") (lit "s3 cr=t")).
Proof.
  repeat (split; [reflexivity|]).
  apply (env_line_assign [" "%char; TAB] (lit "API_KEY") [" "%char] [TAB]
           (jtext "'s3 cr=t'") [" "%char; CR]); reflexivity.
Defined.

(** X12. A line with a key and nothing but blanks after the equals sign
    makes the loop call [front()] on an empty string: undefined
    behaviour. *)
Theorem env_line_empty_value (p1 k p2 p4 : cstring) :
  Shapes.all_in WorkOrders.blanks4 p1 = true ->
  Shapes.all_in WorkOrders.blanks2 p2 = true ->
  Shapes.all_in WorkOrders.blanks4 p4 = true ->
  Shapes.key_text k = true ->
  WorkOrders.env_line (p1 ++ k ++ p2 ++ "="%char :: p4) = Undefined.
Proof.
  intros H1 H2 H4 Hk.
  change (p1 ++ k ++ p2 ++ "="%char :: p4)
    with (p1 ++ k ++ p2 ++ "="%char :: [] ++ p4).
  rewrite env_line_split by (assumption || reflexivity). reflexivity.
Qed.

Lemma env_line_empty_value_witness :
  Shapes.all_in WorkOrders.blanks4 [] = true
  /\ Shapes.all_in WorkOrders.blanks2 [] = true
  /\ Shapes.all_in WorkOrders.blanks4 [CR] = true
  /\ Shapes.key_text (lit "API_KEY") = true
  /\ WorkOrders.env_line ([] ++ lit "API_KEY" ++ [] ++ "="%char :: [CR]) = Undefined.
Proof.
  repeat (split; [reflexivity|]).
  apply (env_line_empty_value [] (lit "API_KEY") [] [CR]); reflexivity.
Defined.

(** X13. Blank lines, lines whose first non-blank character is [#], and
    lines without equals sign assign nothing. *)
Theorem env_line_skip (line : cstring) :
  Shapes.all_in WorkOrders.blanks4 line = true
  \/ (exists p rest, line = p ++ "#"%char :: rest
                     /\ Shapes.all_in WorkOrders.blanks4 p = true)
  \/ StdString.mem "="%char line = false ->
  WorkOrders.env_line line = Ok WorkOrders.Skip.
Proof.
  intros [H|[(p & rest & -> & Hp)|H]].
  - unfold WorkOrders.env_line. now rewrite find_first_not_of_all.
  - unfold WorkOrders.env_line.
    rewrite find_first_not_of_app by (assumption || reflexivity).
    rewrite substr_from. cbn [rbind].
    destruct (last_not_of_some WorkOrders.blanks4 rest 1 (Some 0) 0 eq_refl) as (e & He).
    unfold StdString.find_last_not_of. cbn [StdString.last_not_of].
    change (StdString.mem "#"%char WorkOrders.blanks4) with false. cbn iota.
    rewrite He. rewrite substr_ok by (cbn; lia).
    rewrite Nat.add_1_r. reflexivity.
  - destruct (env_line_cases line) as [E|(key & value & _ & Hm)]; [exact E|].
    congruence.
Qed.

Lemma env_line_skip_witness :
  (Shapes.all_in WorkOrders.blanks4 (lit " # API_KEY=x") = true
   \/ (exists p rest, lit " # API_KEY=x" = p ++ "#"%char :: rest
                      /\ Shapes.all_in WorkOrders.blanks4 p = true)
   \/ StdString.mem "="%char (lit " # API_KEY=x") = false)
  /\ WorkOrders.env_line (lit " # API_KEY=x") = Ok WorkOrders.Skip.
Proof.
  assert (H : Shapes.all_in WorkOrders.blanks4 (lit " # API_KEY=x") = true
   \/ (exists p rest, lit " # API_KEY=x" = p ++ "#"%char :: rest
                      /\ Shapes.all_in WorkOrders.blanks4 p = true)
   \/ StdString.mem "="%char (lit " # API_KEY=x") = false).
  { right. left. exists [" "%char], (lit " API_KEY=x"). split; reflexivity. }
  split; [exact H|]. apply (env_line_skip (lit " # API_KEY=x") H).
Defined.



Section OuterBlanks.
Import StdString WorkOrders Shapes.

Lemma first_not_of_split set a : forall b p,
  first_not_of (a ++ b) set p
  = match first_not_of a set p with
    | Some q => Some q
    | None => first_not_of b set (p + length a)
    end.
Proof.
  induction a as [|c a IH]; intros b p; simpl.
  - now rewrite Nat.add_0_r.
  - destruct (mem c set); [|reflexivity]. rewrite IH.
    destruct (first_not_of a set (S p)); [reflexivity|]. f_equal. lia.
Qed.

Lemma first_not_of_shift set s : forall p q n,
  first_not_of s set p = Some q -> first_not_of s set (n + p) = Some (n + q).
Proof.
  induction s as [|c s IH]; intros p q n; simpl; [discriminate|].
  destruct (mem c set); [|now intros [= <-]].
  intros H. rewrite <- Nat.add_succ_r. now apply IH.
Qed.

Lemma first_not_of_none_shift set s : forall p n,
  first_not_of s set p = None -> first_not_of s set n = None.
Proof.
  induction s as [|c s IH]; intros p n; simpl; [reflexivity|].
  destruct (mem c set); [apply IH | discriminate].
Qed.

Lemma first_not_of_found set s : forall p q,
  first_not_of s set p = Some q ->
  exists x r, skipn (q - p) s = x :: r /\ mem x set = false.
Proof.
  induction s as [|c s IH]; intros p q; simpl; [discriminate|].
  destruct (mem c set) eqn:E.
  - intros H. pose proof (first_not_of_bound _ _ _ _ H) as Hb.
    destruct (IH _ _ H) as (x & r & Hs & Hx).
    exists x, r. replace (q - p) with (S (q - S p)) by lia. auto.
  - intros [= <-]. rewrite Nat.sub_diag. exists c, s. auto.
Qed.

End OuterBlanks.

(** X22. Blanks (space, tab, carriage return, newline) at the start and at
    the end of a line never change what the line does; a file with
    carriage return before each newline reads like one without. *)
Theorem env_line_ignores_outer_blanks (p line q : cstring) :
  Shapes.all_in WorkOrders.blanks4 p = true ->
  Shapes.all_in WorkOrders.blanks4 q = true ->
  WorkOrders.env_line (p ++ line ++ q) = WorkOrders.env_line line.
Proof.
  intros Hp Hq. unfold WorkOrders.env_line, StdString.find_first_not_of.
  rewrite first_not_of_app by assumption. cbn [Nat.add].
  rewrite first_not_of_split.
  destruct (StdString.first_not_of line WorkOrders.blanks4 0) as [start|] eqn:Es.
  - pose proof (first_not_of_shift _ _ 0 start (length p) Es) as Es'.
    rewrite Nat.add_0_r in Es'. rewrite Es'.
    pose proof (first_not_of_bound _ _ _ _ Es) as Hb.
    destruct (first_not_of_found _ _ _ _ Es) as (x & r & Hs & Hx).
    rewrite Nat.sub_0_r in Hs.
    rewrite !substr_ok by (rewrite ?length_app; lia).
    cbn [rbind].
    replace (skipn (length p + start) (p ++ line ++ q)) with (skipn start line ++ q).
    2:{ rewrite skipn_app.
        replace (skipn (length p + start) p) with (@nil ascii)
          by (symmetry; apply skipn_all2; lia).
        cbn [app].
        replace (length p + start - length p) with start by lia.
        rewrite skipn_app. replace (start - length line) with 0 by lia. reflexivity. }
    rewrite Hs. unfold StdString.find_last_not_of.
    rewrite last_not_of_app, (last_not_of_all _ q) by assumption.
    fold (StdString.find_last_not_of (x :: r) WorkOrders.blanks4).
    destruct (StdString.find_last_not_of (x :: r) WorkOrders.blanks4) as [e|] eqn:Ee.
    + apply find_last_not_of_bound in Ee.
      rewrite !substr_ok by lia. cbn [skipn].
      rewrite firstn_app. replace (e + 1 - length (x :: r)) with 0 by lia.
      cbn [firstn]. now rewrite app_nil_r.
    + exfalso. unfold StdString.find_last_not_of in Ee. cbn [StdString.last_not_of] in Ee.
      rewrite Hx in Ee.
      destruct (last_not_of_some WorkOrders.blanks4 r 1 (Some 0) 0 eq_refl) as (e & He).
      congruence.
  - rewrite (first_not_of_none_shift _ line 0 (length p) Es).
    apply (find_first_not_of_all WorkOrders.blanks4 q) in Hq.
    unfold StdString.find_first_not_of in Hq.
    now rewrite (first_not_of_none_shift _ q 0 _ Hq).
Qed.

Lemma env_line_ignores_outer_blanks_witness :
  Shapes.all_in WorkOrders.blanks4 [TAB] = true
  /\ Shapes.all_in WorkOrders.blanks4 [" "%char; CR] = true
  /\ WorkOrders.env_line ([TAB] ++ lit "API_KEY=k v" ++ [" "%char; CR])
     = WorkOrders.env_line (lit "API_KEY=k v").
Proof.
  repeat (split; [reflexivity|]).
  apply (env_line_ignores_outer_blanks [TAB] (lit "API_KEY=k v") [" "%char; CR]);
    reflexivity.
Defined.

Section EnvMapFacts.
Import StdString WorkOrders.

Lemma key_eqb_eq a b : key_eqb a b = true <-> a = b.
Proof. unfold key_eqb. destruct (list_eq_dec ascii_dec a b); split; congruence. Qed.

Lemma key_eqb_refl a : key_eqb a a = true.
Proof. now apply key_eqb_eq. Qed.

Lemma key_eqb_neq a b : a <> b -> key_eqb a b = false.
Proof. unfold key_eqb. destruct (list_eq_dec ascii_dec a b); congruence. Qed.

Lemma map_find_set_same k v m : map_find k (map_set k v m) = Some v.
Proof.
  induction m as [|[k' v'] m IH]; simpl.
  - now rewrite key_eqb_refl.
  - destruct (key_eqb k' k) eqn:E; simpl.
    + now rewrite key_eqb_refl.
    + now rewrite E.
Qed.

Lemma map_find_set_other k k' v m :
  k' <> k -> map_find k' (map_set k v m) = map_find k' m.
Proof.
  intros Hn. induction m as [|[k0 v0] m IH]; simpl.
  - now rewrite key_eqb_neq by congruence.
  - destruct (key_eqb k0 k) eqn:E; simpl.
    + apply key_eqb_eq in E. subst k0.
      now rewrite !key_eqb_neq by congruence.
    + destruct (key_eqb k0 k'); [reflexivity | exact IH].
Qed.

Lemma env_line_no_throw line e : env_line line <> Throw e.
Proof.
  destruct (env_line_cases line) as [E|(key & value & E & _)]; rewrite E; [discriminate|].
  destruct (unquote_cases value) as [[_ ->]|[_ ->]]; discriminate.
Qed.

Lemma env_lines_no_throw lines : forall env e, env_lines lines env <> Throw e.
Proof.
  induction lines as [|l lines IH]; intros env e; cbn [env_lines]; [discriminate|].
  destruct (env_line l) as [[|k v]| |] eqn:E; cbn [rbind]; try apply IH; try discriminate.
  now apply env_line_no_throw in E.
Qed.

Lemma env_lines_app a : forall b env,
  env_lines (a ++ b) env = (env' <~ env_lines a env ;; env_lines b env').
Proof.
  induction a as [|l a IH]; intros b env; cbn [app env_lines]; [reflexivity|].
  destruct (env_line l) as [[|k v]| |]; cbn [rbind]; auto.
Qed.

Lemma env_lines_keeps k lines : forall env env',
  (forall l k' v', In l lines -> env_line l = Ok (Assign k' v') -> k' <> k) ->
  env_lines lines env = Ok env' ->
  map_find k env' = map_find k env.
Proof.
  induction lines as [|l lines IH]; intros env env' Hn H; cbn [env_lines] in H.
  - now injection H as <-.
  - destruct (env_line l) as [[|k' v']| |] eqn:E; cbn [rbind] in H; try discriminate.
    + apply (IH env env'); [|exact H]. intros l0 k0 v0 Hl. apply Hn. now right.
    + rewrite (IH (map_set k' v' env) env'); [| |exact H].
      * apply map_find_set_other. intros ->. eapply Hn; [now left|exact E|reflexivity].
      * intros l0 k0 v0 Hl. apply Hn. now right.
Qed.

End EnvMapFacts.

(** X14. When a key is assigned more than once, the map holds the value
    of the last assignment. *)
Theorem loadEnvFile_last_assignment
        (fs : WorkOrders.files) (filepath content : cstring)
        (before after : list cstring) (line k v : cstring) (env : WorkOrders.env_map) :
  fs filepath = Some content ->
  WorkOrders.getlines content [] = before ++ line :: after ->
  WorkOrders.env_line line = Ok (WorkOrders.Assign k v) ->
  (forall l k' v', In l after ->
                   WorkOrders.env_line l = Ok (WorkOrders.Assign k' v') -> k' <> k) ->
  WorkOrders.loadEnvFile fs filepath = Ok env ->
  WorkOrders.map_find k env = Some v.
Proof.
  intros Hf Hl Hline Hafter. unfold WorkOrders.loadEnvFile. rewrite Hf, Hl.
  rewrite env_lines_app.
  destruct (WorkOrders.env_lines before []) as [env1| |]; cbn [rbind]; try discriminate.
  cbn [WorkOrders.env_lines]. rewrite Hline. cbn [rbind].
  intros H. rewrite (env_lines_keeps k after _ env Hafter H).
  apply map_find_set_same.
Qed.

Lemma loadEnvFile_last_assignment_witness :
  Sample.fs_with Sample.env_two_keys (lit "../.env") = Some Sample.env_two_keys
  /\ WorkOrders.getlines Sample.env_two_keys []
     = [lit "# settings"; lit "API_KEY = old"] ++ jtext "API_KEY='new'" :: [lit "OTHER=1"]
  /\ WorkOrders.env_line (jtext "API_KEY='new'")
     = Ok (WorkOrders.Assign (lit "API_KEY") (lit "new"))
  /\ (forall l k' v', In l [lit "OTHER=1"] ->
                      WorkOrders.env_line l = Ok (WorkOrders.Assign k' v') ->
                      k' <> lit "API_KEY")
  /\ WorkOrders.loadEnvFile (Sample.fs_with Sample.env_two_keys) (lit "../.env")
     = Ok [(lit "API_KEY", lit "new"); (lit "OTHER", lit "1")]
  /\ WorkOrders.map_find (lit "API_KEY")
       [(lit "API_KEY", lit "new"); (lit "OTHER", lit "1")] = Some (lit "new").
Proof.
  assert (H : forall l k' v', In l [lit "OTHER=1"] ->
                WorkOrders.env_line l = Ok (WorkOrders.Assign k' v') ->
                k' <> lit "API_KEY").
  { intros l k' v' [<-|[]] E. vm_compute in E. injection E as <- _. discriminate. }
  repeat (split; [reflexivity || exact H|]).
  apply (loadEnvFile_last_assignment (Sample.fs_with Sample.env_two_keys)
           (lit "../.env") Sample.env_two_keys
           [lit "# settings"; lit "API_KEY = old"] [lit "OTHER=1"]
           (jtext "API_KEY='new'") (lit "API_KEY") (lit "new") _
           eq_refl eq_refl eq_refl H eq_refl).
Defined.


(** X15. A key that no line assigns is not in the map. *)
Theorem loadEnvFile_unassigned
        (fs : WorkOrders.files) (filepath content k : cstring) (env : WorkOrders.env_map) :
  fs filepath = Some content ->
  (forall l k' v', In l (WorkOrders.getlines content []) ->
                   WorkOrders.env_line l = Ok (WorkOrders.Assign k' v') -> k' <> k) ->
  WorkOrders.loadEnvFile fs filepath = Ok env ->
  WorkOrders.map_find k env = None.
Proof.
  intros Hf Hn. unfold WorkOrders.loadEnvFile. rewrite Hf. intros H.
  now rewrite (env_lines_keeps k _ [] env Hn H).
Qed.

Lemma loadEnvFile_unassigned_witness :
  Sample.fs_with (jlines ["# API_KEY=x"; "OTHER=1"]%string) (lit "../.env")
  = Some (jlines ["# API_KEY=x"; "OTHER=1"]%string)
  /\ (forall l k' v',
         In l (WorkOrders.getlines (jlines ["# API_KEY=x"; "OTHER=1"]%string) []) ->
         WorkOrders.env_line l = Ok (WorkOrders.Assign k' v') ->
         k' <> lit "API_KEY")
  /\ WorkOrders.loadEnvFile
       (Sample.fs_with (jlines ["# API_KEY=x"; "OTHER=1"]%string)) (lit "../.env")
     = Ok [(lit "OTHER", lit "1")]
  /\ WorkOrders.map_find (lit "API_KEY") [(lit "OTHER", lit "1")] = None.
Proof.
  assert (H : forall l k' v',
             In l (WorkOrders.getlines (jlines ["# API_KEY=x"; "OTHER=1"]%string) []) ->
             WorkOrders.env_line l = Ok (WorkOrders.Assign k' v') ->
             k' <> lit "API_KEY").
  { intros l k' v' [<-|[<-|[]]] E; vm_compute in E;
      [discriminate | injection E as <- _; discriminate]. }
  repeat (split; [reflexivity || exact H|]).
  apply (loadEnvFile_unassigned
           (Sample.fs_with (jlines ["# API_KEY=x"; "OTHER=1"]%string))
           (lit "../.env") (jlines ["# API_KEY=x"; "OTHER=1"]%string)
           (lit "API_KEY") _ eq_refl H eq_refl).
Defined.


(** X16. [loadEnvFile] throws only when the file cannot be opened, and
    then with the path in the message: every [substr] and [erase] of the
    loop stays within its string. *)
Theorem loadEnvFile_throws_only_unopened
        (fs : WorkOrders.files) (filepath : cstring) (e : exn) :
  WorkOrders.loadEnvFile fs filepath = Throw e ->
  fs filepath = None
  /\ e = runtime_error (lit "Failed to open .env file: " ++ filepath).
Proof.
  unfold WorkOrders.loadEnvFile. destruct (fs filepath) as [content|].
  - intros H. now apply env_lines_no_throw in H.
  - intros [= <-]. split; reflexivity.
Qed.

Lemma loadEnvFile_throws_only_unopened_witness :
  WorkOrders.loadEnvFile (Sample.fs_with []) (lit "/etc/.env")
  = Throw (runtime_error (lit "Failed to open .env file: /etc/.env"))
  /\ Sample.fs_with [] (lit "/etc/.env") = None
  /\ runtime_error (lit "Failed to open .env file: /etc/.env")
     = runtime_error (lit "Failed to open .env file: " ++ lit "/etc/.env").
Proof.
  split; [reflexivity|].
  apply (loadEnvFile_throws_only_unopened (Sample.fs_with []) (lit "/etc/.env")
           (runtime_error (lit "Failed to open .env file: /etc/.env"))).
  reflexivity.
Defined.


(** ** Output and [main] *)

Section OutputFacts.
Import JsonWriter WorkOrders Shapes.

Lemma tcons_mono t (a b : option (list Json.token)) ts :
  (forall ts', a = Some ts' -> b = Some ts') ->
  Json.tcons t a = Some ts -> Json.tcons t b = Some ts.
Proof.
  intros H. destruct a as [ts'|]; [|discriminate].
  rewrite (H ts' eq_refl). auto.
Qed.

(** More fuel does not change what the lexer returns. *)
Lemma lex_mono f : forall f' s ts,
  f <= f' -> Json.lex f s = Some ts -> Json.lex f' s = Some ts.
Proof.
  induction f as [|f IH]; intros f' s ts Hle H; [discriminate|].
  destruct f' as [|f']; [lia|].
  assert (IH' : forall s' ts', Json.lex f s' = Some ts' -> Json.lex f' s' = Some ts').
  { intros s' ts'. apply IH. lia. }
  cbn [Json.lex] in *. destruct s as [|c rest]; [assumption|].
  repeat match type of H with
         | (if ?b then _ else _) = _ => destruct b
         | match ?x with _ => _ end = _ => destruct x
         end;
    try discriminate; try (now apply IH');
    try (eapply tcons_mono; [|exact H]; intros ts'; apply IH').
Qed.

Lemma outputError_text message out :
  outputError message out = (Ok tt, out ++ error_text message).
Proof.
  unfold outputError, io_bind, cout. cbn beta iota.
  f_equal. unfold error_text, error_head, error_tail. now rewrite <- !app_assoc.
Qed.

Lemma outputSuccess_text apiResponse out :
  outputSuccess apiResponse out
  = match prettyPrint apiResponse with
    | Returned formattedData =>
        (Ok tt, out ++ success_text (outputSuccess_count apiResponse) formattedData)
    | LengthError => (Throw length_error, out)
    end.
Proof.
  unfold outputSuccess, io_bind, lift.
  destruct (prettyPrint apiResponse) as [formattedData|]; cbn [of_outcome]; [|reflexivity].
  unfold cout. f_equal. unfold success_text. now rewrite <- !app_assoc.
Qed.

Lemma lex_error_head f R :
  Json.lex (16 + f) (removelast error_head ++ dquote :: R)
  = Json.tcons Json.TLBrace (Json.tcons (Json.TStr (lit "success"))
      (Json.tcons Json.TColon (Json.tcons Json.TFalse (Json.tcons Json.TComma
        (Json.tcons (Json.TStr (lit "message")) (Json.tcons Json.TColon
          match Json.scan_string R with
          | Some (us, rest) =>
              match Json.join_items us with
              | Some str => Json.tcons (Json.TStr str) (Json.lex f rest)
              | None => None
              end
          | None => None
          end)))))).
Proof. reflexivity. Qed.

Lemma lex_error_text message :
  forallb Spec.covered message = true ->
  Json.lex 30 (error_text message)
  = Some [Json.TLBrace; Json.TStr (lit "success"); Json.TColon; Json.TFalse;
          Json.TComma; Json.TStr (lit "message"); Json.TColon;
          Json.TStr message; Json.TRBrace].
Proof.
  intros Hm.
  change (error_text message)
    with (removelast error_head ++ dquote :: escape message ++ dquote :: tl error_tail).
  rewrite (lex_error_head 14).
  rewrite scan_string_escape by assumption.
  rewrite join_items_bytes. reflexivity.
Qed.

Lemma fold_writeCallback chunks : forall acc,
  fold_left writeCallback chunks acc = acc ++ concat chunks.
Proof.
  induction chunks as [|c chunks IH]; intros acc; cbn [fold_left concat].
  - now rewrite app_nil_r.
  - unfold writeCallback at 2. now rewrite IH, app_assoc.
Qed.

(** How [main]'s [try] block ends, and what it has written by then. *)
Lemma main_body_cases fs net argv out :
  (exists e, main_body fs net argv out = (Throw e, out))
  \/ main_body fs net argv out = (Undefined, out)
  \/ exists response formattedData,
       prettyPrint response = Returned formattedData
       /\ main_body fs net argv out
          = (Ok tt, out ++ success_text (outputSuccess_count response) formattedData).
Proof.
  unfold main_body, io_bind, lift.
  destruct (loadEnvFile fs (parseEnvPath argv)) as [env|e|]; [|left; eauto|right; left; reflexivity].
  destruct (map_find API_KEY env) as [[|c key]|]; [left; eauto| |left; eauto].
  destruct (fetchWorkOrders net (c :: key)) as [response|e|];
    [|left; eauto|right; left; reflexivity].
  rewrite outputSuccess_text.
  destruct (prettyPrint response) as [formattedData|] eqn:E; [|left; eauto].
  right. right. exists response, formattedData. auto.
Qed.

End OutputFacts.

(** X17. For a message of characters the escaper covers, what
    [outputError] writes is a JSON object with [success] false and the
    message itself as [message]. *)
Theorem outputError_writes_json (message : cstring) :
  forallb Spec.covered message = true ->
  Json.parse (snd (WorkOrders.outputError message []))
  = Some (Json.Object [(lit "success", Json.Bool false);
                       (lit "message", Json.Str message)]).
Proof.
  intros Hm. rewrite outputError_text. cbn [snd app].
  pose proof (lex_error_text message Hm) as HL.
  unfold Json.parse.
  erewrite (lex_mono 30); [| |exact HL].
  - reflexivity.
  - unfold Shapes.error_text. rewrite length_app.
    assert (30 <= length Shapes.error_head) by (vm_compute; lia). lia.
Qed.

Lemma outputError_writes_json_witness :
  forallb Spec.covered (jtext "cURL error: Couldn't resolve host 'app.innergy.com'\") = true
  /\ Json.parse (snd (WorkOrders.outputError
                        (jtext "cURL error: Couldn't resolve host 'app.innergy.com'\") []))
     = Some (Json.Object
               [(lit "success", Json.Bool false);
                (lit "message",
                 Json.Str (jtext "cURL error: Couldn't resolve host 'app.innergy.com'\"))]).
Proof.
  split; [reflexivity|].
  apply (outputError_writes_json
           (jtext "cURL error: Couldn't resolve host 'app.innergy.com'\")).
  reflexivity.
Defined.

(** X18. No exception leaves [main], and it writes one envelope: either
    an error envelope, or the success envelope of a response that
    [prettyPrint] returned on; nothing is written before a failure. *)
Theorem main_prints_one_envelope
        (lib : WorkOrders.library) (fs : WorkOrders.files) (net : WorkOrders.curl)
        (argv : list cstring) :
  (exists message,
      WorkOrders.main lib fs net argv = (Ok tt, Shapes.error_text message))
  \/ (exists response formattedData,
        JsonWriter.prettyPrint response = Returned formattedData
        /\ WorkOrders.main lib fs net argv
           = (Ok tt, Shapes.success_text
                       (JsonWriter.outputSuccess_count response) formattedData))
  \/ WorkOrders.main lib fs net argv = (Undefined, []).
Proof.
  unfold WorkOrders.main, WorkOrders.try_catch.
  destruct (main_body_cases fs net argv []) as [(e & ->)|[->|(r & f & Hp & ->)]].
  - left. exists (WorkOrders.what lib e). now rewrite outputError_text.
  - right. right. reflexivity.
  - right. left. exists r, f. auto.
Qed.

(** X19. When the file gives no [API_KEY], or an empty one, [main] writes
    the error envelope for the missing key, whatever the network would
    answer. *)
Theorem main_without_key
        (lib : WorkOrders.library) (fs : WorkOrders.files) (net : WorkOrders.curl)
        (argv : list cstring) (env : WorkOrders.env_map) :
  WorkOrders.loadEnvFile fs (WorkOrders.parseEnvPath argv) = Ok env ->
  WorkOrders.map_find WorkOrders.API_KEY env = None
  \/ WorkOrders.map_find WorkOrders.API_KEY env = Some [] ->
  WorkOrders.main lib fs net argv
  = (Ok tt, jlines ["{"; "  'success': false,";
                    "  'message': 'API_KEY not found in .env file'"; "}"; ""]%string).
Proof.
  intros Hl Hk. unfold WorkOrders.main, WorkOrders.try_catch, WorkOrders.main_body,
    WorkOrders.io_bind, WorkOrders.lift.
  rewrite Hl. destruct Hk as [-> | ->]; rewrite outputError_text; reflexivity.
Qed.

Lemma main_without_key_witness :
  WorkOrders.loadEnvFile (Sample.fs_with (jlines ["API_KEY=''"; ""]%string))
    (WorkOrders.parseEnvPath [lit "work_orders"])
  = Ok [(lit "API_KEY", [])]
  /\ (WorkOrders.map_find WorkOrders.API_KEY [(lit "API_KEY", [])] = None
      \/ WorkOrders.map_find WorkOrders.API_KEY [(lit "API_KEY", [])] = Some [])
  /\ WorkOrders.main Sample.lib (Sample.fs_with (jlines ["API_KEY=''"; ""]%string))
       (Sample.net_with 0 [jtext "{'Items':[]}"] 200) [lit "work_orders"]
     = (Ok tt, jlines ["{"; "  'success': false,";
                       "  'message': 'API_KEY not found in .env file'"; "}"; ""]%string).
Proof.
  split; [reflexivity|]. split; [right; reflexivity|].
  apply (main_without_key Sample.lib (Sample.fs_with (jlines ["API_KEY=''"; ""]%string))
           (Sample.net_with 0 [jtext "{'Items':[]}"] 200) [lit "work_orders"]
           [(lit "API_KEY", [])] eq_refl).
  right. reflexivity.
Defined.


(** X20. When [prettyPrint] throws on the response, [main] writes the
    error envelope with the library's text for [std::length_error], and no
    part of a success envelope. *)
Theorem main_when_formatter_throws
        (lib : WorkOrders.library) (fs : WorkOrders.files) (net : WorkOrders.curl)
        (argv : list cstring) (env : WorkOrders.env_map) (c : ascii) (key response : cstring) :
  WorkOrders.loadEnvFile fs (WorkOrders.parseEnvPath argv) = Ok env ->
  WorkOrders.map_find WorkOrders.API_KEY env = Some (c :: key) ->
  WorkOrders.fetchWorkOrders net (c :: key) = Ok response ->
  JsonWriter.prettyPrint response = LengthError ->
  WorkOrders.main lib fs net argv
  = (Ok tt, Shapes.error_text (WorkOrders.what_length_error lib)).
Proof.
  intros Hl Hk Hf Hp. unfold WorkOrders.main, WorkOrders.try_catch, WorkOrders.main_body,
    WorkOrders.io_bind, WorkOrders.lift.
  rewrite Hl, Hk, Hf, outputSuccess_text, Hp, outputError_text. reflexivity.
Qed.

Lemma main_when_formatter_throws_witness :
  WorkOrders.loadEnvFile (Sample.fs_with (lit "API_KEY=k"))
    (WorkOrders.parseEnvPath [lit "work_orders"])
  = Ok [(lit "API_KEY", lit "k")]
  /\ WorkOrders.map_find WorkOrders.API_KEY [(lit "API_KEY", lit "k")] = Some (lit "k")
  /\ WorkOrders.fetchWorkOrders (Sample.net_with 0 [lit "{}"; lit "}"] 200) (lit "k")
     = Ok (lit "{}}")
  /\ JsonWriter.prettyPrint (lit "{}}") = LengthError
  /\ WorkOrders.main Sample.lib (Sample.fs_with (lit "API_KEY=k"))
       (Sample.net_with 0 [lit "{}"; lit "}"] 200) [lit "work_orders"]
     = (Ok tt, Shapes.error_text (lit "basic_string::_M_create")).
Proof.
  repeat (split; [reflexivity|]).
  apply (main_when_formatter_throws Sample.lib (Sample.fs_with (lit "API_KEY=k"))
           (Sample.net_with 0 [lit "{}"; lit "}"] 200) [lit "work_orders"]
           [(lit "API_KEY", lit "k")] "k"%char [] (lit "{}}")); reflexivity.
Defined.


(** X21. [fetchWorkOrders] returns exactly when a handle was obtained, the
    transfer ended with [CURLE_OK] and the status lies in 200..299; it then
    returns the chunks of the body joined in the order of their arrival.
    The request carries the key in its [Api-Key] header. *)
Theorem fetchWorkOrders_ok_iff (net : WorkOrders.curl) (apiKey response : cstring) :
  WorkOrders.fetchWorkOrders net apiKey = Ok response
  <-> WorkOrders.easy_init net = true
      /\ exists chunks httpCode,
           WorkOrders.easy_perform net Shapes.request_url
             (Shapes.request_headers apiKey)
           = (WorkOrders.CURLE_OK, chunks, httpCode)
           /\ (200 <= httpCode < 300)%Z
           /\ response = concat chunks.
Proof.
  unfold WorkOrders.fetchWorkOrders.
  change (lit "https://app.innergy.com/api/projectWorkOrders") with Shapes.request_url.
  change [lit "Accept: application/json"; WorkOrders.c_str (lit "Api-Key: " ++ apiKey)]
    with (Shapes.request_headers apiKey).
  destruct (WorkOrders.easy_init net); cbn [negb].
  2:{ split; [discriminate | intros [H _]; discriminate]. }
  destruct (WorkOrders.easy_perform net Shapes.request_url (Shapes.request_headers apiKey))
    as [[code chunks] httpCode].
  rewrite fold_writeCallback. cbn [app].
  destruct (N.eqb_spec code WorkOrders.CURLE_OK) as [->|Hc]; cbn [negb].
  2:{ split; [discriminate|]. intros (_ & ch & h & [= E _ _] & _). contradiction. }
  destruct (Z.ltb_spec httpCode 200); cbn [orb].
  { split; [discriminate|]. intros (_ & ch & h & [= _ <-] & Hh & _). lia. }
  destruct (Z.geb_spec httpCode 300).
  { split; [discriminate|]. intros (_ & ch & h & [= _ <-] & Hh & _). lia. }
  split.
  - intros [= <-]. split; [reflexivity|]. exists chunks, httpCode.
    repeat split; lia.
  - intros (_ & ch & h & [= <- <-] & _ & ->). reflexivity.
Qed.
